(** * dcmjs-dimse: the client request queue and association negotiation

    A shallow embedding of [src/Client.js] (class [Client]: [addRequest],
    [clearRequests], [addAdditionalPresentationContext], [send]) together
    with the part of [Association.js] that [send] drives.  [Association.js],
    [Command.js] and [Constants.js] are not among the sources: the
    association ledger is modelled from the specification and from the
    test-suite of [Association] ([describe('Association', ...)]), which
    follows [Client.js] in the source file. *)

From Stdlib Require Import ZArith List String Bool Lia.
Import ListNotations.

Open Scope string_scope.
Open Scope Z_scope.

(* ================================================================== *)
(** * Exceptions and the error monad *)
(* ================================================================== *)

(** What a JavaScript [throw] carries in this development.  [Error] is the
    library's own [new Error(message)]; [TypeError] is raised by the engine
    when a property of [null] or [undefined] is read or a value that is not
    a function is called; [RangeError] is what [net.Socket.connect] throws
    for a port that is none; the other two are the failures of the
    association ledger. *)
Inductive Exception : Type :=
| Error (message : string)
| TypeError (message : string)
| RangeError (message : string)
| NotFoundError (id : Z)
| InvalidStateError.

Definition Throws (A : Type) : Type := (Exception + A)%type.

Definition ret {A : Type} (x : A) : Throws A := inr x.
Definition throw {A : Type} (e : Exception) : Throws A := inl e.

Definition bind {A B : Type} (m : Throws A) (k : A -> Throws B) : Throws B :=
  match m with
  | inl e => inl e
  | inr x => k x
  end.

Notation "x <- m ;; k" := (bind m (fun x => k))
  (at level 61, m at next level, right associativity).

(** [forEach]: the body runs on every element in order, threading the
    mutated object; the first exception aborts the loop. *)
Fixpoint forEach {A S : Type} (body : A -> S -> Throws S) (l : list A) (s : S)
  : Throws S :=
  match l with
  | [] => ret s
  | x :: rest => s' <- body x s ;; forEach body rest s'
  end.

(* ================================================================== *)
(** * Well-known identifiers *)
(* ================================================================== *)

(** Modelled from the spec: [Constants.js] is missing from the sources.  The
    spec names the registry's "well-known transfer syntax identifiers (e.g.
    implicit/explicit little-endian defaults)"; the values are the DICOM
    ones, and the tests use them through [TransferSyntax], [SopClass] and
    [StorageClass]. *)
Module TransferSyntax.
Definition ImplicitVRLittleEndian : string := "1.2.840.10008.1.2".
Definition ExplicitVRLittleEndian : string := "1.2.840.10008.1.2.1".
End TransferSyntax.

Module SopClass.
Definition Verification : string := "1.2.840.10008.1.1".
Definition StudyRootQueryRetrieveInformationModelGet : string :=
  "1.2.840.10008.5.1.4.1.2.2.3".
End SopClass.

(* ================================================================== *)
(** * Requests *)
(* ================================================================== *)

(** Modelled from the spec: [Command.js] is missing from the sources.  A
    request carries "enough information to derive an abstract syntax and a
    required transfer syntax": a plain request ([new Request(type, sopClass,
    ...)], e.g. an echo) has its affected SOP class and the default transfer
    syntax; a store request has the SOP class and the transfer syntax of its
    dataset; a retrieve-style (C-GET) request has its query/retrieve model. *)
Inductive Request : Type :=
| PlainRequest (affectedSopClassUid : string)
| CStoreRequest (sopClassUid : string) (transferSyntaxUid : string)
| CGetRequest (affectedSopClassUid : string).

Definition getAffectedSopClassUid (r : Request) : string :=
  match r with
  | PlainRequest uid => uid
  | CStoreRequest uid _ => uid
  | CGetRequest uid => uid
  end.

Definition requestedTransferSyntaxUid (r : Request) : string :=
  match r with
  | CStoreRequest _ ts => ts
  | _ => TransferSyntax.ImplicitVRLittleEndian
  end.

Definition isRetrieve (r : Request) : bool :=
  match r with
  | CGetRequest _ => true
  | _ => false
  end.

(* ================================================================== *)
(** * PresentationContext *)
(* ================================================================== *)

Module PresentationContext.

Inductive Result : Type :=
| Pending
| Accepted
| UserRejected
| NoReasonRejected
| AbstractSyntaxNotSupported
| TransferSyntaxesNotSupported.

Definition isPending (r : Result) : bool :=
  match r with
  | Pending => true
  | _ => false
  end.

Definition isAccepted (r : Result) : bool :=
  match r with
  | Accepted => true
  | _ => false
  end.

(** Modelled from the spec: the class [PresentationContext] of
    [Association.js] is missing from the sources (spec, section 3). *)
Record t : Type := mk {
  pcId : Z;
  abstractSyntaxUid : string;
  transferSyntaxUids : list string;
  result : Result;
  acceptedTransferSyntaxUid : option string
}.

(** Modelled from the spec: [create(abstractSyntaxUid)] "starts with empty
    transfer-syntax list, result = Pending"; the id is the one the owning
    association assigns. *)
Definition create (id : Z) (uid : string) : t :=
  {| pcId := id;
     abstractSyntaxUid := uid;
     transferSyntaxUids := [];
     result := Pending;
     acceptedTransferSyntaxUid := None |}.

Definition getAbstractSyntaxUid (pc : t) : string := abstractSyntaxUid pc.
Definition getTransferSyntaxUids (pc : t) : list string := transferSyntaxUids pc.

Definition hasTransferSyntaxUid (uid : string) (pc : t) : bool :=
  existsb (String.eqb uid) (transferSyntaxUids pc).

(** Modelled from the spec: [addTransferSyntax(uid)] "appends if not
    already present; no-op on duplicate; fails with InvalidStateError if
    result != Pending". *)
Definition addTransferSyntax (uid : string) (pc : t) : Throws t :=
  if negb (isPending (result pc)) then throw InvalidStateError
  else if hasTransferSyntaxUid uid pc then ret pc
  else ret {| pcId := pcId pc;
              abstractSyntaxUid := abstractSyntaxUid pc;
              transferSyntaxUids := transferSyntaxUids pc ++ [uid];
              result := result pc;
              acceptedTransferSyntaxUid := acceptedTransferSyntaxUid pc |}.

(** Modelled from the spec: [setResult(result, acceptedTransferSyntaxUid)]
    "transitions from Pending to a terminal result; fails with
    InvalidStateError if called twice"; the accepted syntax is "set only
    when result == Accepted". *)
Definition setResult (r : Result) (accepted : string) (pc : t) : Throws t :=
  if negb (isPending (result pc)) then throw InvalidStateError
  else ret {| pcId := pcId pc;
              abstractSyntaxUid := abstractSyntaxUid pc;
              transferSyntaxUids := transferSyntaxUids pc;
              result := r;
              acceptedTransferSyntaxUid :=
                if isAccepted r then Some accepted else None |}.

End PresentationContext.

(* ================================================================== *)
(** * Association *)
(* ================================================================== *)

Module Association.

Import PresentationContext.

(** Modelled from the spec: the class [Association] of [Association.js] is
    missing from the sources.  The contexts are kept in insertion order
    ("mapping from id to PresentationContext, insertion order
    preserved"); each carries its own id. *)
Record t : Type := mk {
  callingAeTitle : string;
  calledAeTitle : string;
  presentationContexts : list PresentationContext.t
}.

(** Modelled from the spec: [new Association(callingAeTitle,
    calledAeTitle)], with no presentation context yet. *)
Definition create (callingAeTitle calledAeTitle : string) : t :=
  {| callingAeTitle := callingAeTitle;
     calledAeTitle := calledAeTitle;
     presentationContexts := [] |}.

Definition withContexts (a : t) (pcs : list PresentationContext.t) : t :=
  {| callingAeTitle := callingAeTitle a;
     calledAeTitle := calledAeTitle a;
     presentationContexts := pcs |}.

Definition getCallingAeTitle (a : t) : string := callingAeTitle a.
Definition getCalledAeTitle (a : t) : string := calledAeTitle a.

(** The n-th allocation gets the n-th odd number: ids are "odd and strictly
    increasing in allocation order". *)
Definition nextId (a : t) : Z :=
  2 * Z.of_nat (List.length (presentationContexts a)) + 1.

(** Modelled from the spec: [addPresentationContext(abstractSyntaxUid)]
    "always allocates a new context with the next odd id". *)
Definition addPresentationContext (uid : string) (a : t) : Z * t :=
  let id := nextId a in
  (id, withContexts a (presentationContexts a ++ [PresentationContext.create id uid])%list).

Definition hasAbstractSyntax (uid : string) (pc : PresentationContext.t) : bool :=
  String.eqb (abstractSyntaxUid pc) uid.

(** Modelled from the spec: [addOrGetPresentationContext] "scans existing
    contexts for one whose abstractSyntaxUid matches exactly; returns its
    id if found, otherwise allocates a new one". *)
Definition addOrGetPresentationContext (uid : string) (a : t) : Z * t :=
  match find (hasAbstractSyntax uid) (presentationContexts a) with
  | Some pc => (pcId pc, a)
  | None => addPresentationContext uid a
  end.

Definition hasId (id : Z) (pc : PresentationContext.t) : bool :=
  Z.eqb (pcId pc) id.

(** Modelled from the spec: [getPresentationContext(id)] "fails with
    NotFoundError if no context with that id exists". *)
Definition getPresentationContext (id : Z) (a : t) : Throws PresentationContext.t :=
  match find (hasId id) (presentationContexts a) with
  | Some pc => ret pc
  | None => throw (NotFoundError id)
  end.

(** Modelled from the spec: [getPresentationContexts()] gives the "ordered
    sequence of {id, context}". *)
Definition getPresentationContexts (a : t) : list (Z * PresentationContext.t) :=
  map (fun pc => (pcId pc, pc)) (presentationContexts a).

(** The context object found by [getPresentationContext] is mutated in
    place: the first entry with that id is the one that changes. *)
Fixpoint replaceContext (id : Z) (pc' : PresentationContext.t)
         (pcs : list PresentationContext.t) : list PresentationContext.t :=
  match pcs with
  | [] => []
  | pc :: rest =>
      if hasId id pc then pc' :: rest else pc :: replaceContext id pc' rest
  end.

(** Modelled from the spec: [addTransferSyntaxToPresentationContext(pcId,
    transferSyntax)], as [Client.send] and the tests call it, looks the
    context up and adds the syntax to its proposal list. *)
Definition addTransferSyntaxToPresentationContext
           (id : Z) (transferSyntax : string) (a : t) : Throws t :=
  pc <- getPresentationContext id a ;;
  pc' <- PresentationContext.addTransferSyntax transferSyntax pc ;;
  ret (withContexts a (replaceContext id pc' (presentationContexts a))).

(** A context serves the pair when it has the abstract syntax and already
    proposes the transfer syntax. *)
Definition proposes (p : string * string) (pc : PresentationContext.t) : bool :=
  hasAbstractSyntax (fst p) pc && hasTransferSyntaxUid (snd p) pc.

(** Modelled from the spec: step 2 of [addPresentationContextFromRequest]
    for one implied pair.  A context with the pair's abstract syntax that
    already proposes the pair's transfer syntax is reused; otherwise a new
    context is allocated and seeded with the transfer syntax.  The spec's
    second bullet (a context with the abstract syntax that does not
    propose the transfer syntax is reused and the syntax appended to it)
    is not followed: the repository's test 'should correctly add
    presentation contexts from a C-STORE request' expects a second context
    there ([pcId3] differs from [pcId4], three contexts after four store
    requests of one SOP class in three transfer syntaxes).  The test shows
    this for those store requests only; whether the code merges elsewhere
    the sources do not show, and what is stated of
    [addPresentationContextFromRequest] below, beyond the test's own
    requests, is what holds of it either way: a request is answered with a
    context of its abstract syntax that proposes its transfer syntax. *)
Definition proposePair (p : string * string) (a : t) : Z * t :=
  match find (proposes p) (presentationContexts a) with
  | Some pc => (pcId pc, a)
  | None =>
      let id := nextId a in
      let pc := {| pcId := id;
                   abstractSyntaxUid := fst p;
                   transferSyntaxUids := [snd p];
                   result := Pending;
                   acceptedTransferSyntaxUid := None |} in
      (id, withContexts a (presentationContexts a ++ [pc]))
  end.

Section Registry.

(** The registry collaborator: "the ordered set of storage-class
    abstract syntaxes" ([Object.values(StorageClass)] in the tests).
    [Constants.js] is missing from the sources, so the table is a
    parameter. *)
Variable StorageClass : list string.

(** Modelled from the spec: step 1.  The pair of the request's own
    abstract syntax, and the pairs a retrieve-style request implies
    besides it, "one pair per registered storage class [...] in registry
    order". *)
Definition primaryPair (r : Request) : string * string :=
  (getAffectedSopClassUid r, requestedTransferSyntaxUid r).

Definition storagePairs (r : Request) : list (string * string) :=
  if isRetrieve r
  then map (fun uid => (uid, TransferSyntax.ImplicitVRLittleEndian)) StorageClass
  else [].

Definition impliedPairs (r : Request) : list (string * string) :=
  storagePairs r ++ [primaryPair r].


Definition proposePairs (ps : list (string * string)) (a : t) : t :=
  fold_left (fun a' p => snd (proposePair p a')) ps a.

(** Modelled from the spec: [addPresentationContextFromRequest(request)
    -> id], steps 1 to 3: the storage-class contexts of a retrieve-style
    request "are allocated as side effects", and the id returned is the
    one of the context for the request's own abstract syntax. *)
Definition addPresentationContextFromRequest (r : Request) (a : t) : Z * t :=
  proposePair (primaryPair r) (proposePairs (storagePairs r) a).

End Registry.

Section Merging.

(** Step 2 with the decision left open.  The spec merges every time: a
    context with the abstract syntax that lacks the transfer syntax takes
    it; the test shows two store requests for which the code does not.
    [merges pc ts] says whether the context [pc], of the pair's abstract
    syntax, takes the transfer syntax [ts]: constantly [false] it gives
    [proposePair], constantly [true] the spec's second bullet. *)
Variable merges : PresentationContext.t -> string -> bool.

Definition takes (p : string * string) (pc : PresentationContext.t) : bool :=
  hasAbstractSyntax (fst p) pc && merges pc (snd p).

Definition extended (pc : PresentationContext.t) (ts : string)
  : PresentationContext.t :=
  {| pcId := pcId pc;
     abstractSyntaxUid := abstractSyntaxUid pc;
     transferSyntaxUids := transferSyntaxUids pc ++ [ts];
     result := result pc;
     acceptedTransferSyntaxUid := acceptedTransferSyntaxUid pc |}.

Definition proposePairWith (p : string * string) (a : t) : Z * t :=
  match find (proposes p) (presentationContexts a) with
  | Some pc => (pcId pc, a)
  | None =>
      match find (takes p) (presentationContexts a) with
      | Some pc =>
          (pcId pc,
           withContexts a (replaceContext (pcId pc) (extended pc (snd p))
                                          (presentationContexts a)))
      | None =>
          let id := nextId a in
          let pc := {| pcId := id;
                       abstractSyntaxUid := fst p;
                       transferSyntaxUids := [snd p];
                       result := Pending;
                       acceptedTransferSyntaxUid := None |} in
          (id, withContexts a (presentationContexts a ++ [pc]))
      end
  end.

Variable StorageClass : list string.

Definition proposePairsWith (ps : list (string * string)) (a : t) : t :=
  fold_left (fun a' p => snd (proposePairWith p a')) ps a.

Definition addPresentationContextFromRequestWith (r : Request) (a : t) : Z * t :=
  proposePairWith (primaryPair r) (proposePairsWith (storagePairs StorageClass r) a).

End Merging.

(** Every association the constructor and the operations above produce
    numbers its contexts 1, 3, 5, ... in insertion order. *)
Definition oddIds (n : nat) : list Z :=
  map (fun i => 2 * Z.of_nat i + 1) (seq 0 n).

Definition wellNumbered (a : t) : Prop :=
  map pcId (presentationContexts a) = oddIds (List.length (presentationContexts a)).

Definition allPending (a : t) : Prop :=
  Forall (fun pc => result pc = Pending) (presentationContexts a).

(** [pc'] is [pc] later in the negotiation: the same id and abstract syntax,
    and a proposal list that still has every syntax [pc] proposed. *)
Definition extendsContext (pc pc' : PresentationContext.t) : Prop :=
  pcId pc' = pcId pc
  /\ abstractSyntaxUid pc' = abstractSyntaxUid pc
  /\ incl (transferSyntaxUids pc) (transferSyntaxUids pc').

Definition grows (a a' : t) : Prop :=
  forall pc, In pc (presentationContexts a) ->
             exists pc', In pc' (presentationContexts a') /\ extendsContext pc pc'.

(** Some context of the association has the abstract syntax and proposes
    all of the transfer syntaxes. *)
Definition proposesAll (uid : string) (transferSyntaxes : list string) (a : t)
  : Prop :=
  exists pc, In pc (presentationContexts a)
             /\ abstractSyntaxUid pc = uid
             /\ incl transferSyntaxes (transferSyntaxUids pc).

(** What the loops of [Client.send] keep true of the association they fill. *)
Definition negotiable (a : t) : Prop :=
  wellNumbered a /\ allPending a.

(** What [addOrGetPresentationContext] followed by the transfer-syntax loop
    makes of one additional context: with a context of its abstract syntax
    in the association, the first such context is reused and takes the
    transfer syntaxes it lacks; without one, a context is allocated under
    the next id and proposes the additional context's transfer syntaxes. *)
Definition reusedOrAllocated (uid : string) (tss : list string)
           (a a' : t) : Prop :=
  match find (hasAbstractSyntax uid) (presentationContexts a) with
  | Some pc =>
      map pcId (presentationContexts a') = map pcId (presentationContexts a)
      /\ exists pc',
           getPresentationContext (pcId pc) a' = ret pc'
           /\ extendsContext pc pc'
           /\ forall ts, In ts (transferSyntaxUids pc') <->
                         In ts (transferSyntaxUids pc) \/ In ts tss
  | None =>
      map pcId (presentationContexts a') =
      (map pcId (presentationContexts a) ++ [nextId a])%list
      /\ exists pc',
           getPresentationContext (nextId a) a' = ret pc'
           /\ abstractSyntaxUid pc' = uid
           /\ forall ts, In ts (transferSyntaxUids pc') <-> In ts tss
  end.

End Association.

(* ================================================================== *)
(** * Client *)
(* ================================================================== *)

Module Client.

(** A JavaScript object is known by its reference: [Array.prototype.includes]
    compares objects by identity, not by content. *)
Record Obj (A : Type) : Type := mkObj {
  ref : nat;
  value : A
}.

Arguments mkObj {A} ref value.
Arguments ref {A} o.
Arguments value {A} o.

Definition includes {A : Type} (o : Obj A) (l : list (Obj A)) : bool :=
  existsb (fun o' => Nat.eqb (ref o') (ref o)) l.

(** The values a caller can pass where a request or a presentation context
    is expected: [undefined], [null], an instance of [Request] (or of a
    subclass), an instance of [PresentationContext], or any other value,
    given by what evaluating its [toString()] yields. *)
Inductive JsValue : Type :=
| JsUndefined
| JsNull
| JsRequest (o : Obj Request)
| JsPresentationContext (o : Obj PresentationContext.t)
| JsOther (toStringResult : Throws string).

(** [null] and [undefined]: the values without properties. *)
Definition isNullish (v : JsValue) : bool :=
  match v with
  | JsUndefined | JsNull => true
  | _ => false
  end.

(** [opts]: the recognised network options; a field left out is [None]. *)
Record Options : Type := mkOptions {
  connectTimeout : option Z;
  associationTimeout : option Z;
  pduTimeout : option Z;
  optAssociationLingerTimeout : option Z;
  logCommandDatasets : option bool;
  logDatasets : option bool
}.

(** [{}] *)
Definition emptyOptions : Options :=
  mkOptions None None None None None None.

(** [x || 0] on a number or [undefined]: [undefined] and [0] are falsy. *)
Definition orZero (x : option Z) : Z :=
  match x with
  | Some z => if Z.eqb z 0 then 0 else z
  | None => 0
  end.

(** The state of a [Client]: the two arrays the constructor creates, and the
    field [associationLingerTimeout], which only [send] assigns. *)
Record t : Type := mk {
  requests : list (Obj Request);
  additionalPresentationContexts : list (Obj PresentationContext.t);
  associationLingerTimeout : option Z
}.

Definition create : t :=
  {| requests := [];
     additionalPresentationContexts := [];
     associationLingerTimeout := None |}.

(** What [send] does besides building the association, in program order. *)
Inductive Effect : Type :=
| NewSocket
| NewNetwork (opts : Options)
| NetworkOn (event : string)
| LogInfoConnecting (host : string) (port : Z)
| SocketConnect (host : string) (port : Z).

(** The events of the [Network] object that [send] subscribes to. *)
Inductive NetworkEvent : Type :=
| NetConnect
| NetAssociationAccepted (association : Association.t)
| NetAssociationReleaseResponse
| NetAssociationRejected (result source reason : Z)
| NetDone
| NetCStoreRequest (request : Request) (callback : nat)
| NetNEventReportRequest (request : Request) (callback : nat)
| NetNetworkError (err : string)
| NetClose.

(** The events the [Client] emits to its caller. *)
Inductive ClientEvent : Type :=
| connected
| associationAccepted (association : Association.t)
| associationReleased
| associationRejected (result source reason : Z)
| cStoreRequest (request : Request) (callback : nat)
| nEventReportRequest (request : Request) (callback : nat)
| networkError (err : string)
| closed.

(** What a subscribed handler does when its event fires.  [Emit e] is the
    call [this.emit(...)] with the name and the arguments of [e]; [Raise]
    ends a handler that an exception leaves before its last statement. *)
Inductive Action : Type :=
| Emit (e : ClientEvent)
| SendAssociationRequest (association : Association.t)
| SendRequests (requests : list (Obj Request))
| SendAssociationReleaseRequest
| SocketEnd
| SetTimeout (callback : Action) (delay : option Z)
| Raise (e : Exception).

Section Collaborators.

(** [Object.values(StorageClass)] of [Constants.js], and the [toString]
    methods of [Request] ([Command.js]) and [PresentationContext]
    ([Association.js]); none is among the sources. *)
Variable StorageClass : list string.
Variable requestToString : Request -> string.
Variable contextToString : PresentationContext.t -> string.

(** [v.toString()] *)
Definition toString (v : JsValue) : Throws string :=
  match v with
  | JsUndefined =>
      throw (TypeError "Cannot read properties of undefined (reading 'toString')")
  | JsNull =>
      throw (TypeError "Cannot read properties of null (reading 'toString')")
  | JsRequest o => ret (requestToString (value o))
  | JsPresentationContext o => ret (contextToString (value o))
  | JsOther r => r
  end.

(** [addRequest(request)].  The first branch is [request instanceof
    Request]; in the other the message of the error is built first, and
    building it calls [request.toString()]. *)
Definition addRequest (request : JsValue) (c : t) : t * Throws unit :=
  match request with
  | JsRequest o =>
      if includes o (requests c) then (c, ret tt)
      else ({| requests := requests c ++ [o];
               additionalPresentationContexts := additionalPresentationContexts c;
               associationLingerTimeout := associationLingerTimeout c |},
            ret tt)
  | _ =>
      (c, s <- toString request ;; throw (Error (s ++ " is not a request.")))
  end.

(** [clearRequests()]: [this.requests.length = 0]. *)
Definition clearRequests (c : t) : t :=
  {| requests := [];
     additionalPresentationContexts := additionalPresentationContexts c;
     associationLingerTimeout := associationLingerTimeout c |}.

(** [addAdditionalPresentationContext(context)], of the same shape. *)
Definition addAdditionalPresentationContext (context : JsValue) (c : t)
  : t * Throws unit :=
  match context with
  | JsPresentationContext o =>
      if includes o (additionalPresentationContexts c) then (c, ret tt)
      else ({| requests := requests c;
               additionalPresentationContexts :=
                 additionalPresentationContexts c ++ [o];
               associationLingerTimeout := associationLingerTimeout c |},
            ret tt)
  | _ =>
      (c, s <- toString context ;;
          throw (Error (s ++ " is not a presentation context.")))
  end.

(** The first loop of [send]: one call of
    [addPresentationContextFromRequest] per queued request. *)
Definition addRequestContexts (rs : list (Obj Request)) (a : Association.t)
  : Association.t :=
  fold_left
    (fun a' request =>
       snd (Association.addPresentationContextFromRequest StorageClass (value request) a'))
    rs a.

(** The body of the second loop of [send], for one additional context. *)
Definition addAdditionalContext (context : Obj PresentationContext.t)
           (a : Association.t) : Throws Association.t :=
  let '(pcId, a1) :=
    Association.addOrGetPresentationContext
      (PresentationContext.getAbstractSyntaxUid (value context)) a in
  forEach
    (fun transferSyntax a' =>
       Association.addTransferSyntaxToPresentationContext pcId transferSyntax a')
    (PresentationContext.getTransferSyntaxUids (value context)) a1.

(** The association object that [send] creates and fills. *)
Definition buildAssociation (callingAeTitle calledAeTitle : string) (c : t)
  : Throws Association.t :=
  let association := Association.create callingAeTitle calledAeTitle in
  forEach addAdditionalContext (additionalPresentationContexts c)
          (addRequestContexts (requests c) association).

Definition networkEvents : list string :=
  ["connect"; "associationAccepted"; "associationReleaseResponse";
   "associationRejected"; "done"; "cStoreRequest"; "nEventReportRequest";
   "networkError"; "close"].

(** [socket.connect({ host, port })] accepts the ports 0 to 65535 and throws
    a [RangeError] for any other number, before it connects. *)
Definition validPort (port : Z) : bool :=
  Z.leb 0 port && Z.leb port 65535.

(** [send(host, port, callingAeTitle, calledAeTitle, opts)]: the client
    after the call, the effects performed before the call returns or throws,
    and the association that was built (or the exception thrown). *)
Definition send (host : string) (port : Z) (callingAeTitle calledAeTitle : string)
           (opts : option Options) (c : t)
  : t * (list Effect * Throws Association.t) :=
  let opts := match opts with Some o => o | None => emptyOptions end in
  let c := {| requests := requests c;
              additionalPresentationContexts := additionalPresentationContexts c;
              associationLingerTimeout :=
                Some (orZero (optAssociationLingerTimeout opts)) |} in
  match requests c with
  | [] => (c, ([], throw (Error "There are no requests to perform.")))
  | _ :: _ =>
      match buildAssociation callingAeTitle calledAeTitle c with
      | inl e => (c, ([], throw e))
      | inr association =>
          let prepared :=
            ([NewSocket; NewNetwork opts]
               ++ map NetworkOn networkEvents
               ++ [LogInfoConnecting host port])%list in
          if validPort port
          then (c, ((prepared ++ [SocketConnect host port])%list, ret association))
          else (c, (prepared, throw (RangeError "Port should be >= 0 and < 65536.")))
      end
  end.

(** The handlers [send] subscribes: [c] is the client as it is when the
    event fires (the handlers read [this.requests] and
    [this.associationLingerTimeout] then), [association] the object built by
    that call of [send].  The emitter a [Client] inherits from declares
    [emit(event, data, callback)]: of [this.emit('associationRejected',
    result, source, reason)] it takes [source] for its callback, and calling
    a number that is not 0 throws, so that [socket.end()] is not reached. *)
Definition handle (c : t) (association : Association.t) (ev : NetworkEvent)
  : list Action :=
  match ev with
  | NetConnect => [Emit connected; SendAssociationRequest association]
  | NetAssociationAccepted a =>
      [Emit (associationAccepted a); SendRequests (requests c)]
  | NetAssociationReleaseResponse => [Emit associationReleased; SocketEnd]
  | NetAssociationRejected result source reason =>
      if Z.eqb source 0
      then [Emit (associationRejected result source reason); SocketEnd]
      else [Emit (associationRejected result source reason);
            Raise (TypeError "callback is not a function")]
  | NetDone =>
      [SetTimeout SendAssociationReleaseRequest (associationLingerTimeout c)]
  | NetCStoreRequest request callback => [Emit (cStoreRequest request callback)]
  | NetNEventReportRequest request callback =>
      [Emit (nEventReportRequest request callback)]
  | NetNetworkError err => [SocketEnd; Emit (networkError err)]
  | NetClose => [Emit closed]
  end.

End Collaborators.

(** The name under which [send] subscribes the handler of an event. *)
Definition eventName (ev : NetworkEvent) : string :=
  match ev with
  | NetConnect => "connect"
  | NetAssociationAccepted _ => "associationAccepted"
  | NetAssociationReleaseResponse => "associationReleaseResponse"
  | NetAssociationRejected _ _ _ => "associationRejected"
  | NetDone => "done"
  | NetCStoreRequest _ _ => "cStoreRequest"
  | NetNEventReportRequest _ _ => "nEventReportRequest"
  | NetNetworkError _ => "networkError"
  | NetClose => "close"
  end.

Definition subscribes (event : string) (e : Effect) : bool :=
  match e with
  | NetworkOn name => String.eqb name event
  | _ => false
  end.

(** What follows when the network object of a [send] emits [ev]: the
    handler runs if the effects of that [send] subscribed one under the
    name of the event, and nothing happens otherwise. *)
Definition deliver (effects : list Effect) (c : t) (association : Association.t)
           (ev : NetworkEvent) : list Action :=
  if existsb (subscribes (eventName ev)) effects
  then handle c association ev
  else [].

(** The timers of the runtime: [setTimeout(callback, delay)] waits [delay]
    milliseconds when it is between 1 and 2^31 - 1, and 1 millisecond for
    any other delay. *)
Definition TIMEOUT_MAX : Z := 2147483647.

Definition timerDelay (delay : option Z) : Z :=
  match delay with
  | Some d => if Z.leb 1 d && Z.leb d TIMEOUT_MAX then d else 1
  | None => 1
  end.

(** The delays, in milliseconds, after which the runtime sends an
    association-release request for the timers among the actions. *)
Definition releaseDelays (actions : list Action) : list Z :=
  flat_map (fun act =>
              match act with
              | SetTimeout SendAssociationReleaseRequest delay => [timerDelay delay]
              | _ => []
              end)
           actions.

(** The client [send] leaves behind: the same two arrays, and the linger
    field assigned. *)
Definition afterSend (opts : option Options) (c : t) : t :=
  {| requests := requests c;
     additionalPresentationContexts := additionalPresentationContexts c;
     associationLingerTimeout :=
       Some (orZero (optAssociationLingerTimeout
                       (match opts with Some o => o | None => emptyOptions end))) |}.

(** The linger delay of the options as the documentation has it: the value
    given, and no delay when the option is [0] or left out. *)
Definition configuredLinger (opts : option Options) : Z :=
  match opts with
  | Some o =>
      match optAssociationLingerTimeout o with
      | Some z => z
      | None => 0
      end
  | None => 0
  end.

End Client.

(* ================================================================== *)
(** * The objects of the test-suite *)
(* ================================================================== *)

(** Two entries of the [StorageClass] table of [Constants.js], which the
    tests name; the values are the DICOM ones. *)
Module StorageClassUid.
Definition CtImageStorage : string := "1.2.840.10008.5.1.4.1.1.2".
Definition MrImageStorage : string := "1.2.840.10008.5.1.4.1.1.4".
End StorageClassUid.

Module Fixture.

(** A registry of two storage classes. *)
Definition registry : list string :=
  [StorageClassUid.CtImageStorage; StorageClassUid.MrImageStorage].

(** [new Association(callingAet, calledAet)] of the tests. *)
Definition association : Association.t :=
  Association.create "CALLINGAET" "CALLEDAET".

(** [request3] to [request8] of 'should correctly add presentation contexts
    from a C-STORE request'; a dataset built without a transfer syntax has
    the default one. *)
Definition request3 : Request :=
  CStoreRequest StorageClassUid.CtImageStorage TransferSyntax.ImplicitVRLittleEndian.
Definition request4 : Request :=
  CStoreRequest StorageClassUid.CtImageStorage "1.2.840.10008.1.2.4.90".
Definition request5 : Request :=
  CStoreRequest StorageClassUid.CtImageStorage "1.2.840.10008.1.2.4.90".
Definition request6 : Request :=
  CStoreRequest StorageClassUid.CtImageStorage "1.2.840.10008.1.2.4.70".
Definition request7 : Request :=
  CStoreRequest StorageClassUid.CtImageStorage TransferSyntax.ImplicitVRLittleEndian.
Definition request8 : Request :=
  CStoreRequest StorageClassUid.MrImageStorage TransferSyntax.ImplicitVRLittleEndian.

(** [CGetRequest.createStudyGetRequest(...)] *)
Definition getRequest : Request :=
  CGetRequest SopClass.StudyRootQueryRetrieveInformationModelGet.

(** An echo request object, and a caller-declared context that proposes the
    explicit syntax for the verification class. *)
Definition echo : Client.Obj Request :=
  Client.mkObj 1%nat (PlainRequest SopClass.Verification).

Definition verificationExplicit : Client.Obj PresentationContext.t :=
  Client.mkObj 2%nat
    {| PresentationContext.pcId := 1;
       PresentationContext.abstractSyntaxUid := SopClass.Verification;
       PresentationContext.transferSyntaxUids :=
         [TransferSyntax.ExplicitVRLittleEndian];
       PresentationContext.result := PresentationContext.Pending;
       PresentationContext.acceptedTransferSyntaxUid := None |}.

(** A client on which [addRequest(echo)] and
    [addAdditionalPresentationContext(verificationExplicit)] were called. *)
Definition client : Client.t :=
  {| Client.requests := [echo];
     Client.additionalPresentationContexts := [verificationExplicit];
     Client.associationLingerTimeout := None |}.

Definition requestToString (r : Request) : string := "[object Request]".
Definition contextToString (pc : PresentationContext.t) : string :=
  "[object PresentationContext]".

(** [{ associationLingerTimeout: 5000 }] *)
Definition lingerOptions : Client.Options :=
  Client.mkOptions None None None (Some 5000) None None.

(** The context the echo request of [client] gets, and what it is
    after [send] has merged the additional context into it. *)
Definition verificationImplicit : PresentationContext.t :=
  {| PresentationContext.pcId := 1;
     PresentationContext.abstractSyntaxUid := SopClass.Verification;
     PresentationContext.transferSyntaxUids := [TransferSyntax.ImplicitVRLittleEndian];
     PresentationContext.result := PresentationContext.Pending;
     PresentationContext.acceptedTransferSyntaxUid := None |}.

Definition verificationMerged : PresentationContext.t :=
  {| PresentationContext.pcId := 1;
     PresentationContext.abstractSyntaxUid := SopClass.Verification;
     PresentationContext.transferSyntaxUids :=
       [TransferSyntax.ImplicitVRLittleEndian; TransferSyntax.ExplicitVRLittleEndian];
     PresentationContext.result := PresentationContext.Pending;
     PresentationContext.acceptedTransferSyntaxUid := None |}.


(** [{ associationLingerTimeout: 2147483648 }], one more than the longest
    delay of a timer. *)
Definition longLingerOptions : Client.Options :=
  Client.mkOptions None None None (Some 2147483648) None None.

(** A second echo request object, with the content of [echo]. *)
Definition echoAgain : Client.Obj Request :=
  Client.mkObj 3%nat (PlainRequest SopClass.Verification).

Definition sentAssociation : Association.t :=
  {| Association.callingAeTitle := "SCU";
     Association.calledAeTitle := "ANY-SCP";
     Association.presentationContexts := [verificationMerged] |}.

End Fixture.

(* ================================================================== *)
(** * Using a client: sequences of calls and of network events *)
(* ================================================================== *)

Module ClientApi.

Import Client.

(** A call of one of the public methods of [Client], with its arguments. *)
Inductive Call : Type :=
| CallAddRequest (request : JsValue)
| CallClearRequests
| CallAddAdditionalPresentationContext (context : JsValue)
| CallSend (host : string) (port : Z) (callingAeTitle calledAeTitle : string)
           (opts : option Options).

Section Collaborators.

Variable StorageClass : list string.
Variable requestToString : Request -> string.
Variable contextToString : PresentationContext.t -> string.

(** The client after a call, whether the call returned or threw. *)
Definition call (k : Call) (c : t) : t :=
  match k with
  | CallAddRequest request =>
      fst (addRequest requestToString contextToString request c)
  | CallClearRequests => clearRequests c
  | CallAddAdditionalPresentationContext context =>
      fst (addAdditionalPresentationContext requestToString contextToString context c)
  | CallSend host port callingAeTitle calledAeTitle opts =>
      fst (send StorageClass host port callingAeTitle calledAeTitle opts c)
  end.

(** The client after a sequence of calls, a caller that catches what is
    thrown going on with the next call. *)
Definition calls (ks : list Call) (c : t) : t :=
  fold_left (fun c' k => call k c') ks c.

End Collaborators.

(** No object is twice in the queue, nor twice among the additional
    contexts. *)
Definition duplicateFree (c : t) : Prop :=
  NoDup (map ref (requests c))
  /\ NoDup (map ref (additionalPresentationContexts c)).

(** The objects of a list, each at its first occurrence only. *)
Fixpoint firstOccurrences {A : Type} (l : list (Obj A)) : list (Obj A) :=
  match l with
  | [] => []
  | o :: rest =>
      o :: filter (fun o' => negb (Nat.eqb (ref o') (ref o))) (firstOccurrences rest)
  end.


Definition isSend (k : Call) : bool :=
  match k with
  | CallSend _ _ _ _ _ => true
  | _ => false
  end.



(** The (abstract syntax, transfer syntax) pairs the caller asked for: those
    the queued requests imply and those of the additional contexts. *)
Definition requestedPairs (StorageClass : list string) (c : t)
  : list (string * string) :=
  (flat_map (fun request => Association.impliedPairs StorageClass (value request))
            (requests c)
   ++ flat_map (fun context =>
                  map (fun transferSyntax =>
                         (PresentationContext.getAbstractSyntaxUid (value context),
                          transferSyntax))
                      (PresentationContext.getTransferSyntaxUids (value context)))
               (additionalPresentationContexts c))%list.

(** Every transfer syntax the context proposes is one that was asked for
    with its abstract syntax. *)
Definition justified (pairs : list (string * string))
           (pc : PresentationContext.t) : Prop :=
  forall transferSyntax,
    In transferSyntax (PresentationContext.transferSyntaxUids pc) ->
    In (PresentationContext.abstractSyntaxUid pc, transferSyntax) pairs.

End ClientApi.

(* ================================================================== *)
(** * Facts about lists and [find] *)
(* ================================================================== *)

Section FindFacts.

Context {A : Type}.
Variable f : A -> bool.

Lemma find_app_some (l l' : list A) (x : A) :
  find f l = Some x -> find f (l ++ l') = Some x.
Proof.
  induction l as [|y l IH]; simpl; [discriminate|].
  destruct (f y); auto.
Qed.

Lemma find_app_none (l l' : list A) :
  find f l = None -> find f (l ++ l') = find f l'.
Proof.
  induction l as [|y l IH]; simpl; [reflexivity|].
  destruct (f y); [discriminate|auto].
Qed.

Lemma find_all_false (l : list A) :
  (forall x, In x l -> f x = false) -> find f l = None.
Proof.
  induction l as [|y l IH]; simpl; intros H; [reflexivity|].
  rewrite (H y) by auto. apply IH. intros x Hx. apply H. auto.
Qed.

End FindFacts.

(* ================================================================== *)
(** * The association ledger *)
(* ================================================================== *)

Section LedgerFacts.

Import PresentationContext Association.

Lemma oddIds_S (n : nat) :
  oddIds (S n) = (oddIds n ++ [2 * Z.of_nat n + 1])%list.
Proof.
  unfold oddIds. rewrite seq_S, map_app. reflexivity.
Qed.

Lemma oddIds_bound (n : nat) (id : Z) :
  In id (oddIds n) -> 0 < id < 2 * Z.of_nat n + 1.
Proof.
  unfold oddIds. rewrite in_map_iff. intros [i [<- Hi]].
  apply in_seq in Hi. lia.
Qed.

Lemma oddIds_NoDup (n : nat) : NoDup (oddIds n).
Proof.
  induction n as [|n IH]; [constructor|].
  rewrite oddIds_S. apply NoDup_app; [assumption|repeat constructor; simpl; tauto|].
  intros id Hid [<-|[]]. apply oddIds_bound in Hid. lia.
Qed.

Lemma wellNumbered_create (calling called : string) :
  wellNumbered (Association.create calling called).
Proof. reflexivity. Qed.

Lemma wellNumbered_push (a : Association.t) (pc : PresentationContext.t) :
  wellNumbered a -> pcId pc = nextId a ->
  wellNumbered (withContexts a (presentationContexts a ++ [pc])).
Proof.
  unfold wellNumbered, nextId. simpl. intros Ha Hpc.
  rewrite map_app, length_app, Nat.add_1_r, oddIds_S, Ha. simpl.
  now rewrite Hpc.
Qed.

Lemma wellNumbered_NoDup (a : Association.t) :
  wellNumbered a -> NoDup (map pcId (presentationContexts a)).
Proof.
  unfold wellNumbered. intros ->. apply oddIds_NoDup.
Qed.

(** ** [proposePair] *)


Lemma proposes_seed (p : string * string) (id : Z) :
  proposes p {| pcId := id;
                abstractSyntaxUid := fst p;
                transferSyntaxUids := [snd p];
                result := Pending;
                acceptedTransferSyntaxUid := None |} = true.
Proof.
  unfold proposes, hasAbstractSyntax, hasTransferSyntaxUid. simpl.
  now rewrite !String.eqb_refl.
Qed.

(** After [proposePair p], the first context that serves [p] is the one whose
    id was returned. *)
Lemma proposePair_serves (p : string * string) (a : Association.t) :
  exists pc,
    find (proposes p) (presentationContexts (snd (proposePair p a))) = Some pc
    /\ pcId pc = fst (proposePair p a).
Proof.
  unfold proposePair.
  destruct (find (proposes p) (presentationContexts a)) as [pc|] eqn:E;
    cbn [fst snd withContexts presentationContexts].
  - exists pc. auto.
  - eexists. split.
    + rewrite find_app_none by assumption. cbn [find].
      rewrite proposes_seed. reflexivity.
    + reflexivity.
Qed.

Lemma proposePair_extends (p : string * string) (a : Association.t) :
  exists l,
    presentationContexts (snd (proposePair p a)) =
    (presentationContexts a ++ l)%list.
Proof.
  unfold proposePair.
  destruct (find (proposes p) (presentationContexts a)); simpl.
  - exists []. now rewrite app_nil_r.
  - eexists. reflexivity.
Qed.

(** A pair that is served stays served, by the same context. *)
Lemma proposePair_keeps (p q : string * string) (a : Association.t)
      (pc : PresentationContext.t) :
  find (proposes p) (presentationContexts a) = Some pc ->
  find (proposes p) (presentationContexts (snd (proposePair q a))) = Some pc.
Proof.
  intros H. destruct (proposePair_extends q a) as [l ->].
  now apply find_app_some.
Qed.

Lemma proposePairs_keeps (p : string * string) (ps : list (string * string))
      (a : Association.t) (pc : PresentationContext.t) :
  find (proposes p) (presentationContexts a) = Some pc ->
  find (proposes p) (presentationContexts (proposePairs ps a)) = Some pc.
Proof.
  revert a. induction ps as [|q ps IH]; intros a H; simpl; [assumption|].
  apply IH. now apply proposePair_keeps.
Qed.


Lemma proposePairs_serves (ps : list (string * string)) (a : Association.t) :
  forall p, In p ps ->
    find (proposes p) (presentationContexts (proposePairs ps a)) <> None.
Proof.
  revert a. induction ps as [|q ps IH]; intros a p Hp; simpl; [contradiction|].
  destruct Hp as [->|Hp]; [|now apply IH].
  destruct (proposePair_serves p a) as [pc [Hpc _]].
  now rewrite (proposePairs_keeps p ps _ pc Hpc).
Qed.

Lemma wellNumbered_proposePair (p : string * string) (a : Association.t) :
  wellNumbered a -> wellNumbered (snd (proposePair p a)).
Proof.
  intros Ha. unfold proposePair.
  destruct (find (proposes p) (presentationContexts a)); simpl; [assumption|].
  now apply wellNumbered_push.
Qed.


End LedgerFacts.

(* ================================================================== *)
(** * Negotiation: [addPresentationContextFromRequest] *)
(* ================================================================== *)

Section Negotiation.

Import PresentationContext Association.

Variable StorageClass : list string.

Lemma hasTransferSyntaxUid_In (uid : string) (pc : PresentationContext.t) :
  hasTransferSyntaxUid uid pc = true <-> In uid (transferSyntaxUids pc).
Proof.
  unfold hasTransferSyntaxUid. rewrite existsb_exists. split.
  - intros [x [Hx Heq]]. apply String.eqb_eq in Heq. now subst.
  - intros H. exists uid. split; [assumption|apply String.eqb_refl].
Qed.

Lemma proposes_spec (p : string * string) (pc : PresentationContext.t) :
  proposes p pc = true <->
  abstractSyntaxUid pc = fst p /\ In (snd p) (transferSyntaxUids pc).
Proof.
  unfold proposes, hasAbstractSyntax.
  rewrite andb_true_iff, String.eqb_eq, hasTransferSyntaxUid_In. tauto.
Qed.




(** The context [proposePair] answers with: one that was there, or the new
    one, which proposes the pair's transfer syntax only. *)
Lemma proposePair_origin (p : string * string) (a : Association.t) :
  exists pc,
    find (proposes p) (presentationContexts (snd (proposePair p a))) = Some pc
    /\ pcId pc = fst (proposePair p a)
    /\ (In pc (presentationContexts a) \/ transferSyntaxUids pc = [snd p]).
Proof.
  unfold proposePair.
  destruct (find (proposes p) (presentationContexts a)) as [pc|] eqn:E;
    cbn [fst snd withContexts presentationContexts].
  - exists pc. repeat split; auto. left. now apply find_some in E.
  - eexists. split; [|split].
    + rewrite find_app_none by assumption. cbn [find].
      rewrite proposes_seed. reflexivity.
    + reflexivity.
    + right. reflexivity.
Qed.

Lemma NoDup_map_injective {A B : Type} (f : A -> B) (l : list A) (x y : A) :
  NoDup (map f l) -> In x l -> In y l -> f x = f y -> x = y.
Proof.
  induction l as [|z l IH]; simpl; [contradiction|].
  intros Hnd Hx Hy Hf. inversion Hnd as [|? ? Hz Hnd']; subst.
  destruct Hx as [->|Hx], Hy as [->|Hy]; auto.
  - exfalso. apply Hz. rewrite Hf. now apply in_map.
  - exfalso. apply Hz. rewrite <- Hf. now apply in_map.
Qed.

Lemma getPresentationContext_member (a : Association.t) (pc : PresentationContext.t) :
  wellNumbered a -> In pc (presentationContexts a) ->
  getPresentationContext (pcId pc) a = ret pc.
Proof.
  intros Hwn Hin. apply wellNumbered_NoDup in Hwn.
  unfold getPresentationContext.
  destruct (find (hasId (pcId pc)) (presentationContexts a)) as [pc'|] eqn:E.
  - apply find_some in E. destruct E as [Hin' Hid].
    unfold hasId in Hid. apply Z.eqb_eq in Hid.
    now rewrite (NoDup_map_injective pcId _ pc' pc Hwn Hin' Hin Hid).
  - apply (find_none _ _ E) in Hin. unfold hasId in Hin.
    now rewrite Z.eqb_refl in Hin.
Qed.

(** Proposing storage classes that no context has yet appends one context
    per class, in order. *)
Lemma proposePairs_fresh (uids : list string) (a : Association.t) :
  NoDup (map abstractSyntaxUid (presentationContexts a) ++ uids) ->
  map abstractSyntaxUid
      (presentationContexts
         (proposePairs
            (map (fun uid => (uid, TransferSyntax.ImplicitVRLittleEndian)) uids) a)) =
  (map abstractSyntaxUid (presentationContexts a) ++ uids)%list.
Proof.
  revert a. induction uids as [|uid uids IH]; intros a Hnd; simpl.
  - now rewrite app_nil_r.
  - assert (Hnone :
      find (proposes (uid, TransferSyntax.ImplicitVRLittleEndian))
           (presentationContexts a) = None).
    { apply find_all_false. intros pc Hpc.
      destruct (proposes _ pc) eqn:E; [|reflexivity].
      apply proposes_spec in E. destruct E as [E _]. simpl in E.
      exfalso. apply NoDup_remove_2 in Hnd. apply Hnd.
      apply in_or_app. left. rewrite <- E. now apply in_map. }
    unfold proposePair at 1. rewrite Hnone. cbn [snd].
    rewrite IH; cbn [withContexts presentationContexts];
      rewrite map_app; cbn [map abstractSyntaxUid fst];
      rewrite <- app_assoc; [reflexivity|assumption].
Qed.

End Negotiation.

(* ================================================================== *)
(** * The test-suite, run on the model *)
(* ================================================================== *)

Section TestSuite.

Import PresentationContext Association Fixture.

Let add := addPresentationContextFromRequest registry.

(** 'should throw for unknown presentation contexts' *)
Example test_unknown_presentation_context :
  let (pcId, a) := addPresentationContext "1.2.3.4.5.6.7.8.9" association in
  exists a',
    addTransferSyntaxToPresentationContext pcId "9.8.7.6.5.4.3.2.1" a = ret a'
    /\ getPresentationContext 3 a' = throw (NotFoundError 3).
Proof. simpl. eexists. split; reflexivity. Qed.

(** 'should correctly add presentation contexts from a C-STORE request' *)
Example test_c_store_requests :
  let s3 := add request3 association in
  let s4 := add request4 (snd s3) in
  let s5 := add request5 (snd s4) in
  let s6 := add request6 (snd s5) in
  let s7 := add request7 association in
  let s8 := add request8 (snd s7) in
  fst (add request3 (snd s3)) = fst s3
  /\ List.length (getPresentationContexts (snd s6)) = 3%nat
  /\ fst s3 <> fst s4
  /\ fst s4 = fst s5
  /\ fst s5 <> fst s6
  /\ fst s7 <> fst s8
  /\ List.length (getPresentationContexts (snd s8)) = 2%nat.
Proof. vm_compute. repeat split; discriminate. Qed.

(** 'should correctly add presentation contexts from a C-GET request' *)
Example test_c_get_request :
  let a := snd (add getRequest association) in
  List.length (getPresentationContexts a) = (List.length registry + 1)%nat
  /\ map (fun p => getAbstractSyntaxUid (snd p)) (getPresentationContexts a) =
     (registry ++ [SopClass.StudyRootQueryRetrieveInformationModelGet])%list.
Proof. split; reflexivity. Qed.

End TestSuite.

(** Whatever [Association.js] does, as long as it passes the C-STORE test
    ([expect(pcId3).not.to.be.eq(pcId4)]) it cannot give two store requests
    of one SOP class in two transfer syntaxes the same context id. *)
Section AnyImplementation.

Variable State : Type.
Variable empty : State.
Variable add : Request -> State -> Z * State.

Hypothesis test_passes :
  fst (add Fixture.request3 empty)
  <> fst (add Fixture.request4 (snd (add Fixture.request3 empty))).

Lemma test_excludes_shared_context :
  ~ (forall (a : State) (uid ts1 ts2 : string),
        ts1 <> ts2 ->
        fst (add (CStoreRequest uid ts1) a) =
        fst (add (CStoreRequest uid ts2) (snd (add (CStoreRequest uid ts1) a)))).
Proof.
  intros H. apply test_passes. apply H. discriminate.
Qed.

End AnyImplementation.

(* ================================================================== *)
(** * Properties of the negotiation *)
(* ================================================================== *)

Section NegotiationProperties.

Import PresentationContext Association.

Variable StorageClass : list string.






(** C2: on an empty association a retrieve-style (C-GET) request produces
    exactly |StorageClass| + 1 presentation contexts, and their abstract
    syntaxes are, as a set, the registered storage classes plus the
    request's own query/retrieve model.  The registry lists each storage
    class once, and the model is not one of them. *)
Theorem retrieve_request_on_empty_association
        (callingAeTitle calledAeTitle uid : string) :
  NoDup StorageClass ->
  ~ In uid StorageClass ->
  let a := snd (addPresentationContextFromRequest
                  StorageClass (CGetRequest uid)
                  (Association.create callingAeTitle calledAeTitle)) in
  List.length (getPresentationContexts a) = (List.length StorageClass + 1)%nat
  /\ forall u,
       In u (map (fun p => getAbstractSyntaxUid (snd p)) (getPresentationContexts a))
       <-> (In u StorageClass \/ u = uid).
Proof.
  intros Hnd Hnot. cbv zeta.
  assert (Hall :
    map abstractSyntaxUid
        (presentationContexts
           (snd (addPresentationContextFromRequest
                   StorageClass (CGetRequest uid)
                   (Association.create callingAeTitle calledAeTitle))))
    = (StorageClass ++ [uid])%list).
  { pose proof (proposePairs_fresh (StorageClass ++ [uid])
                  (Association.create callingAeTitle calledAeTitle)) as H.
    simpl in H. rewrite map_app in H. unfold proposePairs in H.
    rewrite fold_left_app in H. simpl in H.
    apply H. apply NoDup_app; [assumption|repeat constructor; simpl; tauto|].
    intros x Hx [<-|[]]. contradiction. }
  unfold getPresentationContexts. rewrite map_map, length_map.
  change (fun pc : PresentationContext.t => getAbstractSyntaxUid (snd (pcId pc, pc)))
    with abstractSyntaxUid.
  rewrite Hall. split.
  - rewrite <- (length_map abstractSyntaxUid), Hall, length_app. reflexivity.
  - intros u. rewrite in_app_iff. simpl. intuition congruence.
Qed.

(** C5: for every association and every id that no presentation context of
    it carries (contexts are never removed, so: that was never allocated),
    [getPresentationContext] fails with the not-found error. *)
Theorem getPresentationContext_unknown_id (a : Association.t) (id : Z) :
  ~ In id (map pcId (presentationContexts a)) ->
  getPresentationContext id a = throw (NotFoundError id).
Proof.
  intros Hnot. unfold getPresentationContext.
  rewrite find_all_false; [reflexivity|].
  intros pc Hpc. unfold hasId. apply Z.eqb_neq. intros Heq.
  apply Hnot. rewrite <- Heq. now apply in_map.
Qed.

End NegotiationProperties.

(* ================================================================== *)
(** * The association that [send] builds *)
(* ================================================================== *)

Section BuildFacts.

Import PresentationContext Association.

Variable StorageClass : list string.

Lemma forEach_app {A S : Type} (body : A -> S -> Throws S) (l1 l2 : list A) (s : S) :
  forEach body (l1 ++ l2) s = (s1 <- forEach body l1 s ;; forEach body l2 s1).
Proof.
  revert s. induction l1 as [|x l1 IH]; intros s; simpl; [reflexivity|].
  destruct (body x s); simpl; auto.
Qed.

Lemma extendsContext_refl (pc : PresentationContext.t) : extendsContext pc pc.
Proof. repeat split. apply incl_refl. Qed.

Lemma extendsContext_trans (x y z : PresentationContext.t) :
  extendsContext x y -> extendsContext y z -> extendsContext x z.
Proof.
  intros [Hi [Ha Ht]] [Hi' [Ha' Ht']]. repeat split; try congruence.
  eapply incl_tran; eassumption.
Qed.

Lemma grows_refl (a : Association.t) : grows a a.
Proof. intros pc Hpc. exists pc. split; [assumption|apply extendsContext_refl]. Qed.

Lemma grows_trans (a b c : Association.t) : grows a b -> grows b c -> grows a c.
Proof.
  intros Hab Hbc pc Hpc.
  destruct (Hab pc Hpc) as [pc' [Hpc' He]].
  destruct (Hbc pc' Hpc') as [pc'' [Hpc'' He']].
  exists pc''. split; [assumption|]. eapply extendsContext_trans; eassumption.
Qed.

Lemma proposesAll_grows (uid : string) (tss : list string) (a a' : Association.t) :
  grows a a' -> proposesAll uid tss a -> proposesAll uid tss a'.
Proof.
  intros Hg [pc [Hin [Ha Ht]]].
  destruct (Hg pc Hin) as [pc' [Hin' [_ [Ha' Ht']]]].
  exists pc'. repeat split; [assumption|congruence|].
  eapply incl_tran; eassumption.
Qed.

(** ** [replaceContext] *)

Lemma replaceContext_ids (id : Z) (pc' : PresentationContext.t)
      (pcs : list PresentationContext.t) :
  pcId pc' = id ->
  map pcId (replaceContext id pc' pcs) = map pcId pcs.
Proof.
  intros Hid. induction pcs as [|pc pcs IH]; simpl; [reflexivity|].
  destruct (hasId id pc) eqn:E; simpl.
  - unfold hasId in E. apply Z.eqb_eq in E. congruence.
  - now rewrite IH.
Qed.

Lemma replaceContext_find (id : Z) (pc pc' : PresentationContext.t)
      (pcs : list PresentationContext.t) :
  pcId pc' = id ->
  find (hasId id) pcs = Some pc ->
  find (hasId id) (replaceContext id pc' pcs) = Some pc'.
Proof.
  intros Hid. induction pcs as [|x pcs IH]; simpl; [discriminate|].
  destruct (hasId id x) eqn:E; simpl.
  - intros _. unfold hasId. now rewrite Hid, Z.eqb_refl.
  - rewrite E. exact IH.
Qed.

Lemma replaceContext_Forall (P : PresentationContext.t -> Prop) (id : Z)
      (pc' : PresentationContext.t) (pcs : list PresentationContext.t) :
  P pc' -> Forall P pcs -> Forall P (replaceContext id pc' pcs).
Proof.
  intros Hpc'. induction 1 as [|x pcs Hx Hall IH]; simpl; [constructor|].
  destruct (hasId id x); constructor; auto.
Qed.

Lemma replaceContext_extends (id : Z) (pc pc' : PresentationContext.t)
      (pcs : list PresentationContext.t) :
  find (hasId id) pcs = Some pc ->
  extendsContext pc pc' ->
  forall x, In x pcs ->
            exists x', In x' (replaceContext id pc' pcs) /\ extendsContext x x'.
Proof.
  intros Hfind Hext. induction pcs as [|y pcs IH]; simpl; [contradiction|].
  simpl in Hfind. destruct (hasId id y) eqn:E.
  - injection Hfind as Hy. subst y. intros x [Hx|Hx].
    + subst x. exists pc'. split; [now left|assumption].
    + exists x. split; [now right|apply extendsContext_refl].
  - intros x [Hx|Hx].
    + subst x. exists y. split; [now left|apply extendsContext_refl].
    + destruct (IH Hfind x Hx) as [x' [Hx' He]].
      exists x'. split; [now right|assumption].
Qed.

(** ** [addTransferSyntaxToPresentationContext] on a pending context *)

Lemma addTransferSyntax_pending (uid : string) (pc : PresentationContext.t) :
  result pc = Pending ->
  exists pc',
    PresentationContext.addTransferSyntax uid pc = ret pc'
    /\ result pc' = Pending
    /\ extendsContext pc pc'
    /\ In uid (transferSyntaxUids pc')
    /\ (forall ts, In ts (transferSyntaxUids pc') ->
                   In ts (transferSyntaxUids pc) \/ ts = uid).
Proof.
  intros Hres. unfold PresentationContext.addTransferSyntax. rewrite Hres. simpl.
  destruct (hasTransferSyntaxUid uid pc) eqn:E.
  - exists pc. repeat split; auto using incl_refl.
    now apply hasTransferSyntaxUid_In.
  - eexists. split; [reflexivity|]. simpl. repeat split; auto.
    + apply incl_appl, incl_refl.
    + apply in_or_app. right. now left.
    + intros ts Hts. apply in_app_or in Hts. simpl in Hts. intuition.
Qed.

Lemma wellNumbered_same_ids (a a' : Association.t) :
  map pcId (presentationContexts a') = map pcId (presentationContexts a) ->
  wellNumbered a -> wellNumbered a'.
Proof.
  unfold wellNumbered. intros Hids Ha.
  rewrite Hids, Ha. f_equal.
  now rewrite <- (length_map pcId), <- Hids, length_map.
Qed.

Lemma addTransferSyntaxToPresentationContext_pending
      (id : Z) (ts : string) (a : Association.t) (pc : PresentationContext.t) :
  negotiable a ->
  getPresentationContext id a = ret pc ->
  exists a' pc',
    addTransferSyntaxToPresentationContext id ts a = ret a'
    /\ negotiable a'
    /\ map pcId (presentationContexts a') = map pcId (presentationContexts a)
    /\ grows a a'
    /\ getPresentationContext id a' = ret pc'
    /\ extendsContext pc pc'
    /\ In ts (transferSyntaxUids pc')
    /\ (forall x, In x (transferSyntaxUids pc') ->
                  In x (transferSyntaxUids pc) \/ x = ts).
Proof.
  intros [Hwn Hpend] Hget.
  unfold addTransferSyntaxToPresentationContext. rewrite Hget. simpl.
  unfold getPresentationContext in Hget.
  destruct (find (hasId id) (presentationContexts a)) as [found|] eqn:Hfind;
    [|discriminate].
  injection Hget as ->.
  destruct (find_some _ _ Hfind) as [Hin Hid].
  unfold hasId in Hid. apply Z.eqb_eq in Hid.
  assert (Hres : result pc = Pending).
  { unfold allPending in Hpend. rewrite Forall_forall in Hpend. auto. }
  destruct (addTransferSyntax_pending ts pc Hres)
    as [pc' [Hadd [Hres' [Hext [Hts Honly]]]]].
  rewrite Hadd. simpl.
  assert (Hid' : pcId pc' = id) by (destruct Hext as [E _]; congruence).
  assert (Hids : map pcId (replaceContext id pc' (presentationContexts a))
                 = map pcId (presentationContexts a))
    by now apply replaceContext_ids.
  eexists. exists pc'. split; [reflexivity|].
  split; [split|].
  - now apply (wellNumbered_same_ids a).
  - unfold allPending. simpl. now apply replaceContext_Forall.
  - split; [exact Hids|]. split.
    { intros x Hx. simpl. now apply (replaceContext_extends id pc). }
    split.
    { unfold getPresentationContext. simpl.
      now rewrite (replaceContext_find id pc pc'). }
    auto.
Qed.

Lemma addTransferSyntaxes_pending
      (id : Z) (tss : list string) (a : Association.t) (pc : PresentationContext.t) :
  negotiable a ->
  getPresentationContext id a = ret pc ->
  exists a' pc',
    forEach (fun transferSyntax a' =>
               addTransferSyntaxToPresentationContext id transferSyntax a') tss a
    = ret a'
    /\ negotiable a'
    /\ map pcId (presentationContexts a') = map pcId (presentationContexts a)
    /\ grows a a'
    /\ getPresentationContext id a' = ret pc'
    /\ extendsContext pc pc'
    /\ incl tss (transferSyntaxUids pc')
    /\ (forall x, In x (transferSyntaxUids pc') ->
                  In x (transferSyntaxUids pc) \/ In x tss).
Proof.
  revert a pc. induction tss as [|ts tss IH]; intros a pc Hneg Hget; simpl.
  - exists a, pc.
    split; [reflexivity|]. split; [assumption|]. split; [reflexivity|].
    split; [apply grows_refl|]. split; [assumption|].
    split; [apply extendsContext_refl|]. split; [apply incl_nil_l|auto].
  - destruct (addTransferSyntaxToPresentationContext_pending id ts a pc Hneg Hget)
      as [a1 [pc1 [Hadd [Hneg1 [Hids1 [Hg1 [Hget1 [Hext1 [Hin1 Honly1]]]]]]]]].
    rewrite Hadd. simpl.
    destruct (IH a1 pc1 Hneg1 Hget1)
      as [a2 [pc2 [Hloop [Hneg2 [Hids2 [Hg2 [Hget2 [Hext2 [Hin2 Honly2]]]]]]]]].
    exists a2, pc2. rewrite Hloop.
    split; [reflexivity|]. split; [assumption|]. split; [congruence|].
    split; [eapply grows_trans; eassumption|]. split; [assumption|].
    split; [eapply extendsContext_trans; eassumption|]. split.
    + intros x [<-|Hx]; [|now apply Hin2].
      destruct Hext2 as [_ [_ E]]. now apply E.
    + intros x Hx. destruct (Honly2 x Hx) as [H|H]; [|right; now right].
      destruct (Honly1 x H) as [H'|H']; [now left|right; now left].
Qed.

End BuildFacts.

(* ================================================================== *)
(** * The two loops of [send] *)
(* ================================================================== *)

Section SendLoops.

Import PresentationContext Association.

Variable StorageClass : list string.

Lemma negotiable_create (calling called : string) :
  negotiable (Association.create calling called).
Proof. split; [reflexivity|constructor]. Qed.

Lemma negotiable_proposePair (p : string * string) (a : Association.t) :
  negotiable a -> negotiable (snd (proposePair p a)).
Proof.
  intros [Hwn Hpend]. split; [now apply wellNumbered_proposePair|].
  unfold proposePair.
  destruct (find (proposes p) (presentationContexts a)); simpl; [assumption|].
  unfold allPending. simpl. apply Forall_app. split; [assumption|].
  repeat constructor.
Qed.

Lemma negotiable_proposePairs (ps : list (string * string)) (a : Association.t) :
  negotiable a -> negotiable (proposePairs ps a).
Proof.
  revert a. induction ps as [|p ps IH]; intros a Ha; simpl; [assumption|].
  apply IH. now apply negotiable_proposePair.
Qed.

Lemma negotiable_addPresentationContextFromRequest (r : Request) (a : Association.t) :
  negotiable a ->
  negotiable (snd (addPresentationContextFromRequest StorageClass r a)).
Proof.
  intros Ha. unfold addPresentationContextFromRequest.
  now apply negotiable_proposePair, negotiable_proposePairs.
Qed.

Lemma negotiable_addRequestContexts (rs : list (Client.Obj Request))
      (a : Association.t) :
  negotiable a -> negotiable (Client.addRequestContexts StorageClass rs a).
Proof.
  unfold Client.addRequestContexts.
  revert a. induction rs as [|r rs IH]; intros a Ha; simpl; [assumption|].
  apply IH. now apply negotiable_addPresentationContextFromRequest.
Qed.

Lemma addAdditionalContext_negotiable
      (context : Client.Obj PresentationContext.t) (a : Association.t) :
  negotiable a ->
  exists a',
    Client.addAdditionalContext context a = ret a'
    /\ negotiable a'
    /\ grows a a'
    /\ proposesAll (abstractSyntaxUid (Client.value context))
                   (transferSyntaxUids (Client.value context)) a'
    /\ reusedOrAllocated (abstractSyntaxUid (Client.value context))
                         (transferSyntaxUids (Client.value context)) a a'.
Proof.
  intros Hneg. unfold Client.addAdditionalContext, reusedOrAllocated.
  unfold addOrGetPresentationContext, getAbstractSyntaxUid, getTransferSyntaxUids.
  set (uid := abstractSyntaxUid (Client.value context)).
  set (tss := transferSyntaxUids (Client.value context)).
  destruct (find (hasAbstractSyntax uid) (presentationContexts a)) as [pc|] eqn:E.
  - destruct (find_some _ _ E) as [Hin Habs].
    unfold hasAbstractSyntax in Habs. apply String.eqb_eq in Habs.
    assert (Hget : getPresentationContext (pcId pc) a = ret pc)
      by (apply getPresentationContext_member; [apply Hneg|assumption]).
    destruct (addTransferSyntaxes_pending (pcId pc) tss a pc Hneg Hget)
      as [a' [pc' [Hloop [Hneg' [Hids [Hg [Hget' [Hext [Hincl Honly]]]]]]]]].
    exists a'. split; [exact Hloop|]. split; [assumption|]. split; [assumption|].
    split.
    + exists pc'. split; [|split; [|assumption]].
      * unfold getPresentationContext in Hget'.
        destruct (find (hasId (pcId pc)) (presentationContexts a')) eqn:F;
          [|discriminate].
        injection Hget' as ->. now apply find_some in F.
      * destruct Hext as [_ [Ha _]]. congruence.
    + split; [assumption|]. exists pc'. split; [assumption|]. split; [assumption|].
      intros ts. split; [apply Honly|].
      intros [H|H]; [|now apply Hincl].
      destruct Hext as [_ [_ Hold]]. now apply Hold.
  - unfold addPresentationContext.
    set (a1 := withContexts a
                 (presentationContexts a ++ [PresentationContext.create (nextId a) uid])).
    assert (Hneg1 : negotiable a1).
    { destruct Hneg as [Hwn Hpend]. split.
      - now apply wellNumbered_push.
      - unfold allPending, a1. simpl. apply Forall_app. split; [assumption|].
        repeat constructor. }
    assert (Hget : getPresentationContext (nextId a) a1
                   = ret (PresentationContext.create (nextId a) uid)).
    { apply (getPresentationContext_member a1 (PresentationContext.create (nextId a) uid)).
      - apply Hneg1.
      - unfold a1. simpl. apply in_or_app. right. now left. }
    destruct (addTransferSyntaxes_pending (nextId a) tss a1 _ Hneg1 Hget)
      as [a' [pc' [Hloop [Hneg' [Hids [Hg [Hget' [Hext [Hincl Honly]]]]]]]]].
    exists a'. split; [exact Hloop|]. split; [assumption|]. split.
    { apply (grows_trans a a1 a'); [|assumption].
      intros x Hx. exists x. split; [|apply extendsContext_refl].
      unfold a1. simpl. apply in_or_app. now left. }
    split.
    + exists pc'. split; [|split; [|assumption]].
      * unfold getPresentationContext in Hget'.
        destruct (find (hasId (nextId a)) (presentationContexts a')) eqn:F;
          [|discriminate].
        injection Hget' as ->. now apply find_some in F.
      * destruct Hext as [_ [Ha _]]. exact Ha.
    + split.
      * rewrite Hids. unfold a1. simpl. rewrite map_app. reflexivity.
      * exists pc'. split; [assumption|]. split.
        { destruct Hext as [_ [Ha _]]. exact Ha. }
        intros ts. split; [|apply Hincl].
        intros H. destruct (Honly ts H) as [[]|H']. assumption.
Qed.

Lemma addAdditionalContexts_negotiable
      (contexts : list (Client.Obj PresentationContext.t)) (a : Association.t) :
  negotiable a ->
  exists a',
    forEach Client.addAdditionalContext contexts a = ret a'
    /\ negotiable a'
    /\ grows a a'.
Proof.
  revert a. induction contexts as [|context contexts IH]; intros a Hneg; simpl.
  - exists a. auto using grows_refl.
  - destruct (addAdditionalContext_negotiable context a Hneg)
      as [a1 [Hadd [Hneg1 [Hg1 _]]]].
    rewrite Hadd. simpl.
    destruct (IH a1 Hneg1) as [a2 [Hloop [Hneg2 Hg2]]].
    exists a2. split; [assumption|]. split; [assumption|].
    eapply grows_trans; eassumption.
Qed.

(** The association of [send] is always built: the two loops throw nothing. *)
Lemma buildAssociation_returns (callingAeTitle calledAeTitle : string) (c : Client.t) :
  exists association,
    Client.buildAssociation StorageClass callingAeTitle calledAeTitle c
    = ret association
    /\ negotiable association.
Proof.
  unfold Client.buildAssociation.
  destruct (addAdditionalContexts_negotiable
              (Client.additionalPresentationContexts c)
              (Client.addRequestContexts
                 StorageClass (Client.requests c)
                 (Association.create callingAeTitle calledAeTitle)))
    as [a [Hloop [Hneg _]]].
  - apply negotiable_addRequestContexts, negotiable_create.
  - exists a. auto.
Qed.

End SendLoops.

(* ================================================================== *)
(** * Properties of the client *)
(* ================================================================== *)

Section ClientProperties.

Import PresentationContext Association Client.

Variable StorageClass : list string.
Variable requestToString : Request -> string.
Variable contextToString : PresentationContext.t -> string.

Lemma send_client (host : string) (port : Z) (callingAeTitle calledAeTitle : string)
      (opts : option Options) (c : Client.t) :
  fst (send StorageClass host port callingAeTitle calledAeTitle opts c)
  = afterSend opts c.
Proof.
  unfold send, afterSend. cbn [requests].
  destruct (requests c); [reflexivity|].
  match goal with |- context [buildAssociation ?s ?x ?y ?z] =>
    destruct (buildAssociation s x y z) end; [reflexivity|].
  destruct (validPort port); reflexivity.
Qed.

Lemma buildAssociation_afterSend (callingAeTitle calledAeTitle : string)
      (opts : option Options) (c : Client.t) :
  buildAssociation StorageClass callingAeTitle calledAeTitle (afterSend opts c)
  = buildAssociation StorageClass callingAeTitle calledAeTitle c.
Proof. reflexivity. Qed.

(** With a request in the queue and a port that is one, [send] returns: it
    builds the association and performs its effects. *)
Lemma send_returns (host : string) (port : Z) (callingAeTitle calledAeTitle : string)
      (opts : option Options) (c : Client.t) :
  requests c <> [] ->
  validPort port = true ->
  exists effects association,
    send StorageClass host port callingAeTitle calledAeTitle opts c
    = (afterSend opts c, (effects, ret association))
    /\ buildAssociation StorageClass callingAeTitle calledAeTitle c = ret association.
Proof.
  intros Hne Hport.
  destruct (buildAssociation_returns StorageClass callingAeTitle calledAeTitle c)
    as [a [Ha _]].
  unfold send. cbn [requests]. fold (afterSend opts c).
  destruct (requests c) as [|r rs]; [contradiction|].
  rewrite buildAssociation_afterSend, Ha, Hport.
  eexists. exists a. split; reflexivity.
Qed.

Lemma send_inversion (host : string) (port : Z) (callingAeTitle calledAeTitle : string)
      (opts : option Options) (c c' : Client.t) (effects : list Effect)
      (association : Association.t) :
  send StorageClass host port callingAeTitle calledAeTitle opts c
  = (c', (effects, ret association)) ->
  c' = afterSend opts c
  /\ requests c <> []
  /\ buildAssociation StorageClass callingAeTitle calledAeTitle c = ret association.
Proof.
  unfold send. cbn [requests]. fold (afterSend opts c).
  rewrite buildAssociation_afterSend.
  destruct (requests c) as [|r rs]; [discriminate|].
  destruct (buildAssociation StorageClass callingAeTitle calledAeTitle c)
    as [e|a]; [discriminate|].
  destruct (validPort port); [|discriminate].
  intros H. injection H as <- _ <-. repeat split. discriminate.
Qed.

(** The effects of a [send] that returned: the port is one, and connecting
    comes last, after the nine subscriptions. *)
Lemma send_effects (host : string) (port : Z) (callingAeTitle calledAeTitle : string)
      (opts : option Options) (c c' : Client.t) (effects : list Effect)
      (association : Association.t) :
  send StorageClass host port callingAeTitle calledAeTitle opts c
  = (c', (effects, ret association)) ->
  validPort port = true
  /\ effects
     = ([NewSocket;
         NewNetwork (match opts with Some o => o | None => emptyOptions end)]
          ++ map NetworkOn networkEvents
          ++ [LogInfoConnecting host port; SocketConnect host port])%list.
Proof.
  unfold send. cbn [requests]. fold (afterSend opts c).
  rewrite buildAssociation_afterSend.
  destruct (requests c) as [|r rs]; [discriminate|].
  destruct (buildAssociation StorageClass callingAeTitle calledAeTitle c)
    as [e|a]; [discriminate|].
  destruct (validPort port); [|discriminate].
  intros H. injection H as _ <- _. split; reflexivity.
Qed.

(** C6: for every client whose request queue is empty, [send] throws its
    error to the caller before any effect: no socket or network object is
    created and no handler subscribed, so no handler can emit a network
    event for it. *)
Theorem send_empty_queue_throws
        (host : string) (port : Z) (callingAeTitle calledAeTitle : string)
        (opts : option Options) (c : Client.t) :
  requests c = [] ->
  snd (send StorageClass host port callingAeTitle calledAeTitle opts c)
  = ([], throw (Error "There are no requests to perform."))
  /\ ~ In (NetworkOn "networkError")
          (fst (snd (send StorageClass host port callingAeTitle calledAeTitle opts c))).
Proof.
  intros Hempty. unfold send. cbn [requests]. rewrite Hempty. simpl. auto.
Qed.

(** C7, as the code has it: registering a request object, or a
    presentation-context object, that is in its list already is no error:
    the call returns normally and leaves the client as it was. *)
Theorem duplicate_registration_is_ignored
        (c : Client.t) (request : Obj Request) (context : Obj PresentationContext.t) :
  (includes request (requests c) = true ->
   addRequest requestToString contextToString (JsRequest request) c = (c, ret tt))
  /\ (includes context (additionalPresentationContexts c) = true ->
      addAdditionalPresentationContext
        requestToString contextToString (JsPresentationContext context) c
      = (c, ret tt)).
Proof.
  split; intros H; simpl; now rewrite H.
Qed.

(** C9: [addRequest] and [addAdditionalPresentationContext] called with
    [null] or [undefined] throw, and what they throw is the [TypeError] of
    evaluating [toString()] on the argument while the message is built, not
    the [Error] "... is not a request." / "... is not a presentation
    context." that the guard was about to throw. *)
Theorem nullish_argument_throws_TypeError (c : Client.t) (v : JsValue) :
  isNullish v = true ->
  exists message,
    toString requestToString contextToString v = throw (TypeError message)
    /\ addRequest requestToString contextToString v c
       = (c, throw (TypeError message))
    /\ addAdditionalPresentationContext requestToString contextToString v c
       = (c, throw (TypeError message))
    /\ (forall s, snd (addRequest requestToString contextToString v c)
                  <> throw (Error (s ++ " is not a request.")))
    /\ (forall s, snd (addAdditionalPresentationContext
                         requestToString contextToString v c)
                  <> throw (Error (s ++ " is not a presentation context."))).
Proof.
  destruct v; try discriminate; intros _; eexists;
    (split; [reflexivity|]); (split; [reflexivity|]); (split; [reflexivity|]);
    split; intros s; discriminate.
Qed.

(** C10: a call of [send] that does not throw leaves the client's
    [requests] and [additionalPresentationContexts] as they were and only
    assigns [associationLingerTimeout]; calling [send] again on the
    resulting client performs the same effects and builds the same
    association. *)
Theorem send_preserves_queue
        (host : string) (port : Z) (callingAeTitle calledAeTitle : string)
        (opts : option Options) (c c' : Client.t) (effects : list Effect)
        (association : Association.t) :
  send StorageClass host port callingAeTitle calledAeTitle opts c
  = (c', (effects, ret association)) ->
  requests c' = requests c
  /\ additionalPresentationContexts c' = additionalPresentationContexts c
  /\ c' = {| requests := requests c;
             additionalPresentationContexts := additionalPresentationContexts c;
             associationLingerTimeout := associationLingerTimeout c' |}
  /\ send StorageClass host port callingAeTitle calledAeTitle opts c'
     = (c', (effects, ret association)).
Proof.
  intros H. destruct (send_inversion _ _ _ _ _ _ _ _ _ H) as [-> [Hne Hbuild]].
  repeat split. rewrite <- H. reflexivity.
Qed.

(** C4, as the code has it: [send] proposes every additional presentation
    context registered on the client through
    [addOrGetPresentationContext].  When its turn comes, a context of the
    association that has its abstract syntax (from a request or from an
    earlier additional context) is reused and takes the transfer syntaxes it
    lacks; a context is allocated only when there is none.  Either way the
    association that [send] ends with proposes all its transfer syntaxes
    under its abstract syntax. *)
Theorem additional_contexts_reuse_or_allocate
        (host : string) (port : Z) (callingAeTitle calledAeTitle : string)
        (opts : option Options) (c c' : Client.t) (effects : list Effect)
        (association : Association.t) :
  send StorageClass host port callingAeTitle calledAeTitle opts c
  = (c', (effects, ret association)) ->
  forall before context after,
    additionalPresentationContexts c = (before ++ context :: after)%list ->
    exists a1 a2,
      forEach addAdditionalContext before
              (addRequestContexts StorageClass (requests c)
                 (Association.create callingAeTitle calledAeTitle)) = ret a1
      /\ addAdditionalContext context a1 = ret a2
      /\ forEach addAdditionalContext after a2 = ret association
      /\ reusedOrAllocated (abstractSyntaxUid (value context))
                           (transferSyntaxUids (value context)) a1 a2
      /\ proposesAll (abstractSyntaxUid (value context))
                     (transferSyntaxUids (value context)) association.
Proof.
  intros Hsend before context after Hsplit.
  destruct (send_inversion _ _ _ _ _ _ _ _ _ Hsend) as [_ [_ Hbuild]].
  unfold buildAssociation in Hbuild. rewrite Hsplit, forEach_app in Hbuild.
  set (a0 := addRequestContexts StorageClass (requests c)
               (Association.create callingAeTitle calledAeTitle)) in *.
  assert (Hneg0 : negotiable a0)
    by apply negotiable_addRequestContexts, negotiable_create.
  destruct (addAdditionalContexts_negotiable before a0 Hneg0)
    as [a1 [Hb [Hneg1 _]]].
  destruct (addAdditionalContext_negotiable context a1 Hneg1)
    as [a2 [Hc [Hneg2 [_ [Hall Hout]]]]].
  destruct (addAdditionalContexts_negotiable after a2 Hneg2)
    as [a3 [Ha [_ Hg3]]].
  rewrite Hb in Hbuild. simpl in Hbuild. rewrite Hc in Hbuild. simpl in Hbuild.
  rewrite Ha in Hbuild. injection Hbuild as <-.
  exists a1, a2. repeat (split; [assumption|]).
  now apply (proposesAll_grows _ _ a2 a3).
Qed.

End ClientProperties.

(* ================================================================== *)
(** * The properties on the objects of the test-suite *)
(* ================================================================== *)

Section Instances.

Import PresentationContext Association Client Fixture.

Lemma registry_NoDup : NoDup registry.
Proof.
  unfold registry. repeat constructor; simpl; intuition discriminate.
Defined.




(** The ledger passes the C-STORE test, so it is one of the implementations
    that [test_excludes_shared_context] speaks of. *)
Lemma ledger_excludes_shared_context :
  ~ (forall (a : Association.t) (uid ts1 ts2 : string),
        ts1 <> ts2 ->
        fst (addPresentationContextFromRequest registry (CStoreRequest uid ts1) a) =
        fst (addPresentationContextFromRequest
               registry (CStoreRequest uid ts2)
               (snd (addPresentationContextFromRequest
                       registry (CStoreRequest uid ts1) a)))).
Proof.
  apply (test_excludes_shared_context
           Association.t association (addPresentationContextFromRequest registry)).
  vm_compute. discriminate.
Qed.


Lemma retrieve_request_on_empty_association_witness :
  NoDup registry
  /\ ~ In SopClass.StudyRootQueryRetrieveInformationModelGet registry
  /\ let a := snd (addPresentationContextFromRequest
                     registry getRequest association) in
     List.length (getPresentationContexts a) = (List.length registry + 1)%nat
     /\ forall u,
          In u (map (fun p => getAbstractSyntaxUid (snd p)) (getPresentationContexts a))
          <-> (In u registry \/ u = SopClass.StudyRootQueryRetrieveInformationModelGet).
Proof.
  assert (Hnot : ~ In SopClass.StudyRootQueryRetrieveInformationModelGet registry)
    by (simpl; intuition discriminate).
  split; [exact registry_NoDup|]. split; [exact Hnot|].
  exact (retrieve_request_on_empty_association
           registry "CALLINGAET" "CALLEDAET"
           SopClass.StudyRootQueryRetrieveInformationModelGet
           registry_NoDup Hnot).
Defined.

(** 'should throw for unknown presentation contexts': one context, id 1;
    id 3 is unknown. *)
Lemma getPresentationContext_unknown_id_witness :
  let a := snd (addPresentationContext "1.2.3.4.5.6.7.8.9" association) in
  ~ In 3 (map pcId (presentationContexts a))
  /\ getPresentationContext 3 a = throw (NotFoundError 3).
Proof.
  assert (Hnot : ~ In 3 (map pcId (presentationContexts
                   (snd (addPresentationContext "1.2.3.4.5.6.7.8.9" association)))))
    by (simpl; intuition discriminate).
  split; [exact Hnot|].
  exact (getPresentationContext_unknown_id _ 3 Hnot).
Defined.

Lemma send_empty_queue_throws_witness :
  requests Client.create = []
  /\ snd (send registry "pacs.example.org" 104 "SCU" "ANY-SCP" None Client.create)
     = ([], throw (Error "There are no requests to perform."))
  /\ ~ In (NetworkOn "networkError")
          (fst (snd (send registry "pacs.example.org" 104 "SCU" "ANY-SCP" None
                          Client.create))).
Proof.
  split; [reflexivity|].
  apply (send_empty_queue_throws registry "pacs.example.org" 104 "SCU" "ANY-SCP"
                                 None Client.create).
  reflexivity.
Defined.

(** The claim C7 on [Fixture.client]: the echo request and the additional
    context are registered already; registering them again throws nothing
    and the client stays as it was. *)
Lemma duplicate_registration_does_not_throw :
  includes echo (requests client) = true
  /\ addRequest requestToString contextToString (JsRequest echo) client
     = (client, ret tt)
  /\ includes verificationExplicit (additionalPresentationContexts client) = true
  /\ addAdditionalPresentationContext
       requestToString contextToString (JsPresentationContext verificationExplicit)
       client
     = (client, ret tt).
Proof.
  repeat split.
Qed.

Lemma duplicate_registration_is_ignored_witness :
  includes echo (requests client) = true
  /\ includes verificationExplicit (additionalPresentationContexts client) = true
  /\ addRequest requestToString contextToString (JsRequest echo) client
     = (client, ret tt)
  /\ addAdditionalPresentationContext
       requestToString contextToString (JsPresentationContext verificationExplicit)
       client
     = (client, ret tt).
Proof.
  split; [reflexivity|]. split; [reflexivity|].
  destruct (duplicate_registration_is_ignored
              requestToString contextToString client echo verificationExplicit)
    as [Hrequest Hcontext].
  split; [apply Hrequest|apply Hcontext]; reflexivity.
Defined.

Lemma nullish_argument_throws_TypeError_witness :
  isNullish JsNull = true
  /\ exists message,
       toString requestToString contextToString JsNull = throw (TypeError message)
       /\ addRequest requestToString contextToString JsNull client
          = (client, throw (TypeError message))
       /\ addAdditionalPresentationContext requestToString contextToString JsNull client
          = (client, throw (TypeError message))
       /\ (forall s, snd (addRequest requestToString contextToString JsNull client)
                     <> throw (Error (s ++ " is not a request.")))
       /\ (forall s, snd (addAdditionalPresentationContext
                            requestToString contextToString JsNull client)
                     <> throw (Error (s ++ " is not a presentation context."))).
Proof.
  split; [reflexivity|].
  apply (nullish_argument_throws_TypeError
           requestToString contextToString client JsNull).
  reflexivity.
Defined.

Lemma send_preserves_queue_witness :
  let sent := send registry "pacs.example.org" 104 "SCU" "ANY-SCP"
                   (Some lingerOptions) client in
  sent = (fst sent, (fst (snd sent), ret sentAssociation))
  /\ requests (fst sent) = requests client
  /\ additionalPresentationContexts (fst sent) = additionalPresentationContexts client
  /\ fst sent = {| requests := requests client;
                   additionalPresentationContexts :=
                     additionalPresentationContexts client;
                   associationLingerTimeout := associationLingerTimeout (fst sent) |}
  /\ send registry "pacs.example.org" 104 "SCU" "ANY-SCP" (Some lingerOptions)
          (fst sent)
     = (fst sent, (fst (snd sent), ret sentAssociation)).
Proof.
  cbv zeta. split; [reflexivity|].
  apply (send_preserves_queue registry "pacs.example.org" 104 "SCU" "ANY-SCP"
                              (Some lingerOptions) client).
  reflexivity.
Defined.

(** The claim C4 on [Fixture.client]: the echo request gets context 1; the
    additional context, of the same abstract syntax, gets no context of its
    own: the association that [send] builds still has context 1 only, which
    now proposes the additional context's transfer syntax as well. *)
Lemma additional_context_is_merged_not_allocated :
  presentationContexts
    (addRequestContexts registry (requests client)
                        (Association.create "SCU" "ANY-SCP"))
  = [verificationImplicit]
  /\ snd (snd (send registry "pacs.example.org" 104 "SCU" "ANY-SCP" None client))
     = ret sentAssociation
  /\ presentationContexts sentAssociation = [verificationMerged]
  /\ List.length (getPresentationContexts sentAssociation) = 1%nat.
Proof.
  repeat split.
Qed.

Lemma additional_contexts_reuse_or_allocate_witness :
  let sent := send registry "pacs.example.org" 104 "SCU" "ANY-SCP" None client in
  sent = (fst sent, (fst (snd sent), ret sentAssociation))
  /\ exists a1 a2,
       forEach addAdditionalContext []
               (addRequestContexts registry (requests client)
                  (Association.create "SCU" "ANY-SCP")) = ret a1
       /\ addAdditionalContext verificationExplicit a1 = ret a2
       /\ forEach addAdditionalContext [] a2 = ret sentAssociation
       /\ reusedOrAllocated SopClass.Verification
                            [TransferSyntax.ExplicitVRLittleEndian] a1 a2
       /\ proposesAll SopClass.Verification
                      [TransferSyntax.ExplicitVRLittleEndian] sentAssociation.
Proof.
  cbv zeta. split; [reflexivity|].
  apply (additional_contexts_reuse_or_allocate
           registry "pacs.example.org" 104 "SCU" "ANY-SCP" None client
           (fst (send registry "pacs.example.org" 104 "SCU" "ANY-SCP" None client))
           (fst (snd (send registry "pacs.example.org" 104 "SCU" "ANY-SCP" None client)))
           sentAssociation eq_refl [] verificationExplicit [] eq_refl).
Defined.

End Instances.

(* ================================================================== *)
(** * The queue of a client under any use *)
(* ================================================================== *)

Section QueueProperties.

Import PresentationContext Association Client ClientApi.

Variable StorageClass : list string.
Variable requestToString : Request -> string.
Variable contextToString : PresentationContext.t -> string.

Lemma includes_In {A : Type} (o : Obj A) (l : list (Obj A)) :
  includes o l = true <-> In (ref o) (map ref l).
Proof.
  unfold includes. rewrite existsb_exists, in_map_iff. split.
  - intros [x [Hx Heq]]. apply Nat.eqb_eq in Heq. now exists x.
  - intros [x [Heq Hx]]. exists x. split; [assumption|now apply Nat.eqb_eq].
Qed.

Lemma includes_push {A : Type} (o : Obj A) (l : list (Obj A)) :
  includes o (l ++ [o]) = true.
Proof.
  apply includes_In. rewrite map_app. apply in_or_app. right. now left.
Qed.

Lemma NoDup_push {A : Type} (o : Obj A) (l : list (Obj A)) :
  includes o l = false -> NoDup (map ref l) -> NoDup (map ref (l ++ [o])).
Proof.
  intros Hnew Hnd. rewrite map_app. simpl.
  apply NoDup_app; [assumption|repeat constructor; simpl; tauto|].
  intros x Hx [<-|[]].
  apply includes_In in Hx. congruence.
Qed.

Lemma addRequest_duplicateFree (v : JsValue) (c : Client.t) :
  duplicateFree c ->
  duplicateFree (fst (addRequest requestToString contextToString v c)).
Proof.
  intros [Hr Ha]. destruct v as [| |o|o|r]; simpl; try (split; assumption).
  destruct (includes o (requests c)) eqn:E; simpl; split; try assumption.
  now apply NoDup_push.
Qed.

Lemma addAdditionalPresentationContext_duplicateFree (v : JsValue) (c : Client.t) :
  duplicateFree c ->
  duplicateFree
    (fst (addAdditionalPresentationContext requestToString contextToString v c)).
Proof.
  intros [Hr Ha]. destruct v as [| |o|o|r]; simpl; try (split; assumption).
  destruct (includes o (additionalPresentationContexts c)) eqn:E; simpl;
    split; try assumption.
  now apply NoDup_push.
Qed.

Lemma call_duplicateFree (k : Call) (c : Client.t) :
  duplicateFree c ->
  duplicateFree (call StorageClass requestToString contextToString k c).
Proof.
  intros H. destruct k; simpl.
  - now apply addRequest_duplicateFree.
  - destruct H as [_ Ha]. split; [constructor|assumption].
  - now apply addAdditionalPresentationContext_duplicateFree.
  - rewrite send_client. exact H.
Qed.

Lemma calls_duplicateFree (ks : list Call) (c : Client.t) :
  duplicateFree c ->
  duplicateFree (calls StorageClass requestToString contextToString ks c).
Proof.
  unfold calls. revert c. induction ks as [|k ks IH]; intros c H; simpl;
    [assumption|].
  apply IH. now apply call_duplicateFree.
Qed.

(** X1: whatever calls of [addRequest], [clearRequests],
    [addAdditionalPresentationContext] and [send] are made on a new client,
    with whatever arguments and whether they throw or not, no object is ever
    twice in [requests] or twice in [additionalPresentationContexts]. *)
Theorem new_client_stays_duplicate_free (ks : list Call) :
  duplicateFree
    (calls StorageClass requestToString contextToString ks Client.create).
Proof.
  apply calls_duplicateFree. split; constructor.
Qed.

(** X2: [addRequest] rejects every value that is not a [Request] instance
    with an exception and leaves the client untouched; it accepts every
    [Request] instance, which is in the queue afterwards.  The same holds of
    [addAdditionalPresentationContext] and [PresentationContext]
    instances. *)
Theorem registration_accepts_instances_only (v : JsValue) (c : Client.t) :
  match v with
  | JsRequest o =>
      snd (addRequest requestToString contextToString v c) = ret tt
      /\ includes o (requests (fst (addRequest requestToString contextToString v c)))
         = true
  | _ =>
      fst (addRequest requestToString contextToString v c) = c
      /\ exists e, snd (addRequest requestToString contextToString v c) = throw e
  end
  /\ match v with
     | JsPresentationContext o =>
         snd (addAdditionalPresentationContext requestToString contextToString v c)
         = ret tt
         /\ includes o
              (additionalPresentationContexts
                 (fst (addAdditionalPresentationContext
                         requestToString contextToString v c))) = true
     | _ =>
         fst (addAdditionalPresentationContext requestToString contextToString v c)
         = c
         /\ exists e,
              snd (addAdditionalPresentationContext
                     requestToString contextToString v c) = throw e
     end.
Proof.
  destruct v as [| |o|o|[e|s]]; simpl; repeat split; try (eexists; reflexivity).
  - destruct (includes o (requests c)); reflexivity.
  - destruct (includes o (requests c)) eqn:E; simpl;
      [assumption|apply includes_push].
  - destruct (includes o (additionalPresentationContexts c)); reflexivity.
  - destruct (includes o (additionalPresentationContexts c)) eqn:E; simpl;
      [assumption|apply includes_push].
Qed.

(** X3: registering is idempotent: a second [addRequest] (or
    [addAdditionalPresentationContext]) with the same argument ends exactly
    as the first did, returning or throwing alike, and changes nothing
    more. *)
Theorem registration_is_idempotent (v : JsValue) (c : Client.t) :
  addRequest requestToString contextToString v
             (fst (addRequest requestToString contextToString v c))
  = addRequest requestToString contextToString v c
  /\ addAdditionalPresentationContext
       requestToString contextToString v
       (fst (addAdditionalPresentationContext requestToString contextToString v c))
     = addAdditionalPresentationContext requestToString contextToString v c.
Proof.
  destruct v as [| |o|o|r]; simpl; split; try reflexivity.
  - destruct (includes o (requests c)) eqn:E; simpl.
    + now rewrite E.
    + now rewrite includes_push.
  - destruct (includes o (additionalPresentationContexts c)) eqn:E; simpl.
    + now rewrite E.
    + now rewrite includes_push.
Qed.

(** X4: duplicates are told by identity, not by content: two different
    request objects that are not queued yet are both queued, in the order of
    the calls, even when they hold the same request. *)
Theorem distinct_objects_are_both_queued (o1 o2 : Obj Request) (c : Client.t) :
  ref o1 <> ref o2 ->
  includes o1 (requests c) = false ->
  includes o2 (requests c) = false ->
  requests
    (fst (addRequest requestToString contextToString (JsRequest o2)
            (fst (addRequest requestToString contextToString (JsRequest o1) c))))
  = (requests c ++ [o1; o2])%list.
Proof.
  intros Hneq H1 H2. simpl. rewrite H1. simpl.
  assert (Hnew : includes o2 (requests c ++ [o1]) = false).
  { unfold includes in *. rewrite existsb_app, H2. simpl.
    rewrite orb_false_r. apply Nat.eqb_neq. exact Hneq. }
  rewrite Hnew. simpl. now rewrite <- app_assoc.
Qed.

Lemma includes_by_ref {A : Type} (o o' : Obj A) (l : list (Obj A)) :
  ref o = ref o' -> includes o l = includes o' l.
Proof. unfold includes. now intros ->. Qed.

Lemma filter_filter_and {A : Type} (f g : A -> bool) (l : list A) :
  filter f (filter g l) = filter (fun x => g x && f x) l.
Proof.
  induction l as [|x l IH]; simpl; [reflexivity|].
  destruct (g x); simpl; [destruct (f x)|]; now rewrite IH.
Qed.

(** Queueing request objects one after the other appends, to the queue
    there is, the first occurrences of those that are not in it. *)
Lemma addRequests_queue (os : list (Obj Request)) (c : Client.t) :
  let c' := calls StorageClass requestToString contextToString
                  (map (fun o => CallAddRequest (JsRequest o)) os) c in
  requests c'
  = (requests c
       ++ filter (fun o => negb (includes o (requests c))) (firstOccurrences os))%list
  /\ additionalPresentationContexts c' = additionalPresentationContexts c
  /\ associationLingerTimeout c' = associationLingerTimeout c.
Proof.
  cbv zeta. unfold calls. revert c.
  induction os as [|o os IH]; intros c; simpl.
  - now rewrite app_nil_r.
  - destruct (includes o (requests c)) eqn:E; simpl.
    + destruct (IH c) as [Hq Hrest]. split; [|exact Hrest].
      rewrite Hq. f_equal. rewrite filter_filter_and. apply filter_ext.
      intros x. destruct (Nat.eqb_spec (ref x) (ref o)) as [Hx|Hx]; simpl;
        [|reflexivity].
      now rewrite (includes_by_ref x o _ Hx), E.
    + match goal with
      | |- context [fold_left _ _ ?c1] => destruct (IH c1) as [Hq Hrest]
      end.
      simpl in Hq, Hrest. split; [|exact Hrest].
      rewrite Hq, <- app_assoc. simpl. f_equal. f_equal.
      rewrite filter_filter_and. apply filter_ext.
      intros x. unfold includes. rewrite existsb_app. simpl.
      rewrite orb_false_r, negb_orb, (Nat.eqb_sym (ref o) (ref x)).
      apply andb_comm.
Qed.

(** X5: after [clearRequests], which touches nothing but the queue, the
    queue is what is registered from then on: request objects queued one
    after the other, some of them more than once, leave the queue holding
    each of them once, at the place of its first registration, whatever was
    queued before the clearing. *)
Theorem queue_holds_first_registrations (os : list (Obj Request)) (c : Client.t) :
  let c' := calls StorageClass requestToString contextToString
                  (CallClearRequests
                     :: map (fun o => CallAddRequest (JsRequest o)) os) c in
  requests c' = firstOccurrences os
  /\ additionalPresentationContexts c' = additionalPresentationContexts c
  /\ associationLingerTimeout c' = associationLingerTimeout c.
Proof.
  cbv zeta.
  change (calls StorageClass requestToString contextToString
                (CallClearRequests :: map (fun o => CallAddRequest (JsRequest o)) os) c)
    with (calls StorageClass requestToString contextToString
                (map (fun o => CallAddRequest (JsRequest o)) os) (clearRequests c)).
  destruct (addRequests_queue os (clearRequests c)) as [Hq Hrest].
  split; [|exact Hrest].
  rewrite Hq. simpl. clear Hq Hrest.
  induction (firstOccurrences os) as [|x l IH]; simpl; [reflexivity|].
  now rewrite IH.
Qed.

(** X6: the requests sent when the association is accepted are the queue as
    it is then, not as it was when [send] was called: a request added after
    [send] is sent too, and after [clearRequests] none is sent; the
    association proposed on connect is still the one [send] built. *)
Theorem accepted_sends_the_current_queue
        (host : string) (port : Z) (callingAeTitle calledAeTitle : string)
        (opts : option Options) (c c' : Client.t) (effects : list Effect)
        (association accepted : Association.t) (o : Obj Request) :
  send StorageClass host port callingAeTitle calledAeTitle opts c
  = (c', (effects, ret association)) ->
  includes o (requests c) = false ->
  let later := fst (addRequest requestToString contextToString (JsRequest o) c') in
  handle later association (NetAssociationAccepted accepted)
  = [Emit (associationAccepted accepted); SendRequests (requests c ++ [o])]
  /\ handle later association NetConnect
     = [Emit connected; SendAssociationRequest association]
  /\ handle (clearRequests c') association (NetAssociationAccepted accepted)
     = [Emit (associationAccepted accepted); SendRequests []].
Proof.
  intros Hsend Hnew. cbv zeta.
  destruct (send_inversion _ _ _ _ _ _ _ _ _ _ Hsend) as [-> _].
  simpl. rewrite Hnew. simpl. auto.
Qed.


End QueueProperties.

(* ================================================================== *)
(** * Looking up what was allocated *)
(* ================================================================== *)

Section LedgerRoundTrips.

Import PresentationContext Association.

Variable StorageClass : list string.

Lemma nextId_fresh (a : Association.t) :
  wellNumbered a -> ~ In (nextId a) (map pcId (presentationContexts a)).
Proof.
  unfold wellNumbered, nextId. intros -> Hin.
  apply oddIds_bound in Hin. lia.
Qed.



Lemma addPresentationContextFromRequest_extends (r : Request) (a : Association.t) :
  exists l,
    presentationContexts (snd (addPresentationContextFromRequest StorageClass r a))
    = (presentationContexts a ++ l)%list.
Proof.
  unfold addPresentationContextFromRequest.
  assert (Hps : forall ps b, exists l,
             presentationContexts (proposePairs ps b)
             = (presentationContexts b ++ l)%list).
  { induction ps as [|p ps IH]; intros b; simpl.
    - exists []. now rewrite app_nil_r.
    - destruct (IH (snd (proposePair p b))) as [l Hl].
      destruct (proposePair_extends p b) as [l' Hl'].
      exists (l' ++ l)%list. fold (proposePairs ps (snd (proposePair p b))).
      now rewrite Hl, Hl', app_assoc. }
  destruct (Hps (storagePairs StorageClass r) a) as [l Hl].
  destruct (proposePair_extends
              (primaryPair r) (proposePairs (storagePairs StorageClass r) a))
    as [l' Hl'].
  exists (l ++ l')%list. now rewrite Hl', Hl, app_assoc.
Qed.



(** X10: allocate, add a transfer syntax, look up.  In an association
    numbered by the ledger, [addPresentationContext] allocates the next odd
    id, adding a transfer syntax under that id succeeds, and
    [getPresentationContext] then finds a context with that id and abstract
    syntax that is pending and proposes exactly that transfer syntax; one
    context was added. *)
Theorem allocated_context_round_trip (uid ts : string) (a : Association.t) :
  wellNumbered a ->
  let allocated := addPresentationContext uid a in
  fst allocated = 2 * Z.of_nat (List.length (getPresentationContexts a)) + 1
  /\ exists a' pc,
       addTransferSyntaxToPresentationContext (fst allocated) ts (snd allocated)
       = ret a'
       /\ getPresentationContext (fst allocated) a' = ret pc
       /\ pcId pc = fst allocated
       /\ getAbstractSyntaxUid pc = uid
       /\ getTransferSyntaxUids pc = [ts]
       /\ result pc = Pending
       /\ List.length (getPresentationContexts a')
          = S (List.length (getPresentationContexts a)).
Proof.
  intros Hwn. cbv zeta. unfold addPresentationContext. cbn [fst snd].
  split.
  { unfold nextId, getPresentationContexts. now rewrite length_map. }
  set (a1 := withContexts a
               (presentationContexts a ++ [PresentationContext.create (nextId a) uid])).
  assert (Hwn1 : wellNumbered a1) by now apply wellNumbered_push.
  assert (Hget : getPresentationContext (nextId a) a1
                 = ret (PresentationContext.create (nextId a) uid)).
  { apply (getPresentationContext_member a1 (PresentationContext.create (nextId a) uid)).
    - exact Hwn1.
    - unfold a1. simpl. apply in_or_app. right. now left. }
  unfold addTransferSyntaxToPresentationContext. rewrite Hget.
  cbn [bind ret PresentationContext.addTransferSyntax PresentationContext.create
       result isPending negb hasTransferSyntaxUid transferSyntaxUids existsb
       pcId abstractSyntaxUid acceptedTransferSyntaxUid app].
  eexists. eexists. split; [reflexivity|]. split.
  - unfold getPresentationContext in *. cbn [presentationContexts withContexts].
    destruct (find (hasId (nextId a)) (presentationContexts a1)) as [found|] eqn:F;
      [|discriminate].
    erewrite replaceContext_find; [reflexivity|reflexivity|exact F].
  - split; [reflexivity|]. split; [reflexivity|]. split; [reflexivity|].
    split; [reflexivity|].
    unfold getPresentationContexts. cbn [presentationContexts withContexts].
    rewrite !length_map.
    rewrite <- (length_map pcId), replaceContext_ids by reflexivity.
    rewrite length_map. unfold a1. cbn [presentationContexts withContexts].
    rewrite length_app. simpl. lia.
Qed.

End LedgerRoundTrips.

(* ================================================================== *)
(** * What [send] proposes *)
(* ================================================================== *)

Section SendProposal.

Import PresentationContext Association Client ClientApi.

Variable StorageClass : list string.

(** ** Every queued request is covered *)

Lemma grows_extends (a a' : Association.t) (l : list PresentationContext.t) :
  presentationContexts a' = (presentationContexts a ++ l)%list -> grows a a'.
Proof.
  intros H pc Hpc. exists pc. split; [|apply extendsContext_refl].
  rewrite H. apply in_or_app. now left.
Qed.

Lemma grows_addPresentationContextFromRequest (r : Request) (a : Association.t) :
  grows a (snd (addPresentationContextFromRequest StorageClass r a)).
Proof.
  destruct (addPresentationContextFromRequest_extends StorageClass r a) as [l Hl].
  now apply (grows_extends _ _ l).
Qed.

Lemma grows_addRequestContexts (rs : list (Obj Request)) (a : Association.t) :
  grows a (addRequestContexts StorageClass rs a).
Proof.
  unfold addRequestContexts. revert a.
  induction rs as [|r rs IH]; intros a; simpl; [apply grows_refl|].
  eapply grows_trans; [apply grows_addPresentationContextFromRequest|apply IH].
Qed.

Lemma found_proposesAll (p : string * string) (a : Association.t)
      (pc : PresentationContext.t) :
  find (proposes p) (presentationContexts a) = Some pc ->
  proposesAll (fst p) [snd p] a.
Proof.
  intros Hfind. destruct (find_some _ _ Hfind) as [Hin Hp].
  apply proposes_spec in Hp. destruct Hp as [Ha Ht].
  exists pc. split; [assumption|]. split; [assumption|].
  intros x [<-|[]]. assumption.
Qed.

Lemma addPresentationContextFromRequest_covers (r : Request) (a : Association.t) :
  forall p, In p (impliedPairs StorageClass r) ->
    proposesAll (fst p) [snd p]
                (snd (addPresentationContextFromRequest StorageClass r a)).
Proof.
  intros p Hp. unfold impliedPairs in Hp. apply in_app_or in Hp.
  unfold addPresentationContextFromRequest.
  set (a1 := proposePairs (storagePairs StorageClass r) a).
  destruct Hp as [Hp|[<-|[]]].
  - pose proof (proposePairs_serves (storagePairs StorageClass r) a p Hp) as Hs.
    fold a1 in Hs.
    destruct (find (proposes p) (presentationContexts a1)) as [pc|] eqn:E;
      [|contradiction].
    apply (found_proposesAll p _ pc).
    now apply proposePair_keeps.
  - destruct (proposePair_serves (primaryPair r) a1) as [pc [Hfind _]].
    now apply (found_proposesAll _ _ pc).
Qed.

Lemma addRequestContexts_covers (rs : list (Obj Request)) (a : Association.t) :
  forall request, In request rs ->
  forall p, In p (impliedPairs StorageClass (value request)) ->
    proposesAll (fst p) [snd p] (addRequestContexts StorageClass rs a).
Proof.
  revert a. induction rs as [|r rs IH]; intros a request Hin p Hp;
    [contradiction|].
  destruct Hin as [->|Hin].
  - apply (proposesAll_grows _ _
             (snd (addPresentationContextFromRequest StorageClass (value request) a))).
    + apply (grows_addRequestContexts rs).
    + now apply addPresentationContextFromRequest_covers.
  - exact (IH _ request Hin p Hp).
Qed.

(** X11: with a request in the queue, building the association never
    throws, whatever additional contexts are registered: its contexts are
    numbered 1, 3, 5, ... and all pending.  [send] then creates the socket
    and the network object on the options (or on [{}]), subscribes the nine
    handlers and logs; for a port from 0 to 65535 it connects, once and
    last, to the host and port given, and returns; for any other port the
    connect throws a [RangeError] and nothing is connected. *)
Theorem send_with_requests_connects
        (host : string) (port : Z) (callingAeTitle calledAeTitle : string)
        (opts : option Options) (c : Client.t) :
  requests c <> [] ->
  exists association,
    buildAssociation StorageClass callingAeTitle calledAeTitle c = ret association
    /\ map pcId (presentationContexts association)
       = oddIds (List.length (presentationContexts association))
    /\ Forall (fun pc => result pc = Pending) (presentationContexts association)
    /\ let prepared :=
         ([NewSocket;
           NewNetwork (match opts with Some o => o | None => emptyOptions end)]
            ++ map NetworkOn networkEvents
            ++ [LogInfoConnecting host port])%list in
       (0 <= port <= 65535 ->
        snd (send StorageClass host port callingAeTitle calledAeTitle opts c)
        = ((prepared ++ [SocketConnect host port])%list, ret association))
       /\ (~ 0 <= port <= 65535 ->
           exists message,
             snd (send StorageClass host port callingAeTitle calledAeTitle opts c)
             = (prepared, throw (RangeError message))).
Proof.
  intros Hne.
  destruct (buildAssociation_returns StorageClass callingAeTitle calledAeTitle c)
    as [a [Ha [Hwn Hpend]]].
  exists a. split; [exact Ha|]. split; [exact Hwn|]. split; [exact Hpend|].
  cbv zeta. unfold send. cbn [requests]. fold (afterSend opts c).
  destruct (requests c) as [|r rs]; [contradiction|].
  rewrite buildAssociation_afterSend, Ha. unfold validPort.
  split; intros Hport.
  - replace (Z.leb 0 port && Z.leb port 65535) with true; [reflexivity|].
    symmetry. apply andb_true_iff. split; apply Z.leb_le; lia.
  - replace (Z.leb 0 port && Z.leb port 65535) with false;
      [eexists; reflexivity|].
    symmetry. apply not_true_is_false. intros H.
    apply andb_true_iff in H. destruct H as [H1 H2].
    apply Z.leb_le in H1. apply Z.leb_le in H2. lia.
Qed.

(** X12: the association that [send] builds covers the queue: for every
    queued request and every (abstract syntax, transfer syntax) pair it
    implies, some context has the abstract syntax and proposes the transfer
    syntax, also after the additional contexts were merged in. *)
Theorem send_covers_every_request
        (host : string) (port : Z) (callingAeTitle calledAeTitle : string)
        (opts : option Options) (c c' : Client.t) (effects : list Effect)
        (association : Association.t) :
  send StorageClass host port callingAeTitle calledAeTitle opts c
  = (c', (effects, ret association)) ->
  forall request, In request (requests c) ->
  forall p, In p (impliedPairs StorageClass (value request)) ->
    exists pc,
      In pc (presentationContexts association)
      /\ abstractSyntaxUid pc = fst p
      /\ In (snd p) (transferSyntaxUids pc).
Proof.
  intros Hsend request Hin p Hp.
  destruct (send_inversion _ _ _ _ _ _ _ _ _ _ Hsend) as [_ [_ Hbuild]].
  unfold buildAssociation in Hbuild.
  set (a0 := addRequestContexts StorageClass (requests c)
               (Association.create callingAeTitle calledAeTitle)) in *.
  assert (Hneg0 : negotiable a0)
    by apply negotiable_addRequestContexts, negotiable_create.
  destruct (addAdditionalContexts_negotiable
              (additionalPresentationContexts c) a0 Hneg0) as [a1 [Hloop [_ Hg]]].
  rewrite Hloop in Hbuild. injection Hbuild as <-.
  destruct (proposesAll_grows (fst p) [snd p] a0 a1 Hg) as [pc [Hpc [Ha Ht]]].
  - subst a0. now apply (addRequestContexts_covers _ _ request).
  - exists pc. split; [assumption|]. split; [assumption|].
    apply Ht. now left.
Qed.

(** ** Nothing is proposed that was not asked for *)

Lemma addTransferSyntax_shape (uid : string) (pc pc' : PresentationContext.t) :
  PresentationContext.addTransferSyntax uid pc = ret pc' ->
  pcId pc' = pcId pc
  /\ abstractSyntaxUid pc' = abstractSyntaxUid pc
  /\ forall x, In x (transferSyntaxUids pc') ->
               In x (transferSyntaxUids pc) \/ x = uid.
Proof.
  unfold PresentationContext.addTransferSyntax.
  destruct (negb (isPending (result pc))); [discriminate|].
  destruct (hasTransferSyntaxUid uid pc); intros H; injection H as <-; simpl.
  - auto.
  - repeat split. intros x Hx. apply in_app_or in Hx. simpl in Hx. intuition.
Qed.

Lemma addTransferSyntaxToPresentationContext_Forall
      (P : PresentationContext.t -> Prop) (id : Z) (ts : string)
      (a a' : Association.t) :
  addTransferSyntaxToPresentationContext id ts a = ret a' ->
  Forall P (presentationContexts a) ->
  (forall pc pc', In pc (presentationContexts a) -> pcId pc = id -> P pc ->
                  PresentationContext.addTransferSyntax ts pc = ret pc' -> P pc') ->
  Forall P (presentationContexts a').
Proof.
  unfold addTransferSyntaxToPresentationContext, getPresentationContext.
  destruct (find (hasId id) (presentationContexts a)) as [pc|] eqn:Hfind;
    [|discriminate].
  simpl. destruct (PresentationContext.addTransferSyntax ts pc) as [e|pc'] eqn:Hadd;
    [discriminate|].
  simpl. intros H Hall Hstep. injection H as <-. simpl.
  apply replaceContext_Forall; [|assumption].
  destruct (find_some _ _ Hfind) as [Hin Hid].
  unfold hasId in Hid. apply Z.eqb_eq in Hid.
  apply (Hstep pc pc' Hin Hid); [|assumption].
  rewrite Forall_forall in Hall. now apply Hall.
Qed.

Lemma addTransferSyntaxes_justified
      (pairs : list (string * string)) (id : Z) (uid : string)
      (tss : list string) (a a' : Association.t) :
  Forall (fun pc => justified pairs pc /\ (pcId pc = id -> abstractSyntaxUid pc = uid))
         (presentationContexts a) ->
  (forall ts, In ts tss -> In (uid, ts) pairs) ->
  forEach (fun transferSyntax b =>
             addTransferSyntaxToPresentationContext id transferSyntax b) tss a
  = ret a' ->
  Forall (fun pc => justified pairs pc /\ (pcId pc = id -> abstractSyntaxUid pc = uid))
         (presentationContexts a').
Proof.
  revert a. induction tss as [|ts tss IH]; intros a Hall Hpairs; simpl.
  - intros H. injection H as <-. assumption.
  - destruct (addTransferSyntaxToPresentationContext id ts a) as [e|a1] eqn:Hadd;
      [discriminate|].
    simpl. apply IH; [|intros x Hx; apply Hpairs; now right].
    apply (addTransferSyntaxToPresentationContext_Forall _ id ts a a1 Hadd Hall).
    intros pc pc' _ Hid [Hj Hu] Hstep.
    destruct (addTransferSyntax_shape ts pc pc' Hstep) as [Hi [Ha Ht]].
    split.
    + intros x Hx. rewrite Ha. destruct (Ht x Hx) as [Hold| ->].
      * now apply Hj.
      * rewrite (Hu Hid). apply Hpairs. now left.
    + intros _. rewrite Ha. now apply Hu.
Qed.

Lemma addAdditionalContext_justified
      (pairs : list (string * string)) (context : Obj PresentationContext.t)
      (a a' : Association.t) :
  wellNumbered a ->
  Forall (justified pairs) (presentationContexts a) ->
  (forall ts, In ts (transferSyntaxUids (value context)) ->
              In (abstractSyntaxUid (value context), ts) pairs) ->
  addAdditionalContext context a = ret a' ->
  Forall (justified pairs) (presentationContexts a').
Proof.
  intros Hwn Hall Hpairs.
  unfold addAdditionalContext, addOrGetPresentationContext,
    getAbstractSyntaxUid, getTransferSyntaxUids.
  set (uid := abstractSyntaxUid (value context)) in *.
  destruct (find (hasAbstractSyntax uid) (presentationContexts a)) as [pc|] eqn:E.
  - intros Hloop.
    destruct (find_some _ _ E) as [Hin Habs].
    unfold hasAbstractSyntax in Habs. apply String.eqb_eq in Habs.
    eapply Forall_impl; [|eapply (addTransferSyntaxes_justified pairs (pcId pc) uid);
                          [|exact Hpairs|exact Hloop]].
    + intros x [Hx _]. exact Hx.
    + rewrite Forall_forall in *. intros x Hx. split; [now apply Hall|].
      intros Hid.
      now rewrite (NoDup_map_injective pcId _ x pc (wellNumbered_NoDup _ Hwn) Hx Hin Hid).
  - unfold addPresentationContext. intros Hloop.
    eapply Forall_impl; [|eapply (addTransferSyntaxes_justified pairs (nextId a) uid);
                          [|exact Hpairs|exact Hloop]].
    + intros x [Hx _]. exact Hx.
    + cbn [presentationContexts withContexts]. apply Forall_app. split.
      * rewrite Forall_forall in *. intros x Hx. split; [now apply Hall|].
        intros Hid. exfalso. apply (nextId_fresh a Hwn).
        rewrite <- Hid. now apply in_map.
      * constructor; [|constructor]. split; [intros x []|reflexivity].
Qed.

Lemma addAdditionalContexts_justified
      (pairs : list (string * string)) (contexts : list (Obj PresentationContext.t))
      (a a' : Association.t) :
  negotiable a ->
  Forall (justified pairs) (presentationContexts a) ->
  (forall context, In context contexts ->
   forall ts, In ts (transferSyntaxUids (value context)) ->
              In (abstractSyntaxUid (value context), ts) pairs) ->
  forEach addAdditionalContext contexts a = ret a' ->
  Forall (justified pairs) (presentationContexts a').
Proof.
  revert a. induction contexts as [|context contexts IH];
    intros a Hneg Hall Hpairs; simpl.
  - intros H. injection H as <-. assumption.
  - destruct (addAdditionalContext_negotiable context a Hneg)
      as [a1 [Hadd [Hneg1 _]]].
    rewrite Hadd. simpl. apply IH; [assumption| |].
    + apply (addAdditionalContext_justified pairs context a a1);
        [apply Hneg|assumption| |assumption].
      intros ts Hts. apply (Hpairs context); [now left|assumption].
    + intros x Hx. apply Hpairs. now right.
Qed.

Lemma proposePair_justified (pairs : list (string * string)) (p : string * string)
      (a : Association.t) :
  In p pairs ->
  Forall (justified pairs) (presentationContexts a) ->
  Forall (justified pairs) (presentationContexts (snd (proposePair p a))).
Proof.
  intros Hp Hall. unfold proposePair.
  destruct (find (proposes p) (presentationContexts a)); simpl; [assumption|].
  apply Forall_app. split; [assumption|]. constructor; [|constructor].
  intros x [<-|[]]. simpl. now destruct p.
Qed.

Lemma proposePairs_justified (pairs ps : list (string * string)) (a : Association.t) :
  incl ps pairs ->
  Forall (justified pairs) (presentationContexts a) ->
  Forall (justified pairs) (presentationContexts (proposePairs ps a)).
Proof.
  revert a. induction ps as [|p ps IH]; intros a Hincl Hall; simpl; [assumption|].
  apply IH.
  - intros x Hx. apply Hincl. now right.
  - apply proposePair_justified; [apply Hincl; now left|assumption].
Qed.

Lemma addRequestContexts_justified (pairs : list (string * string))
      (rs : list (Obj Request)) (a : Association.t) :
  (forall request, In request rs ->
                   incl (impliedPairs StorageClass (value request)) pairs) ->
  Forall (justified pairs) (presentationContexts a) ->
  Forall (justified pairs)
         (presentationContexts (addRequestContexts StorageClass rs a)).
Proof.
  unfold addRequestContexts. revert a.
  induction rs as [|r rs IH]; intros a Hincl Hall; simpl; [assumption|].
  apply IH; [intros x Hx; apply Hincl; now right|].
  unfold addPresentationContextFromRequest.
  assert (Hr : incl (impliedPairs StorageClass (value r)) pairs)
    by (apply Hincl; now left).
  unfold impliedPairs in Hr.
  apply proposePair_justified.
  - apply Hr. apply in_or_app. right. now left.
  - apply proposePairs_justified; [|assumption].
    intros x Hx. apply Hr. apply in_or_app. now left.
Qed.

(** X13: the association that [send] builds proposes nothing the caller did
    not ask for: every transfer syntax of every context is there, with the
    context's abstract syntax, because a queued request implies the pair or
    because an additional context of that abstract syntax lists it. *)
Theorem send_proposes_only_what_was_asked
        (host : string) (port : Z) (callingAeTitle calledAeTitle : string)
        (opts : option Options) (c c' : Client.t) (effects : list Effect)
        (association : Association.t) :
  send StorageClass host port callingAeTitle calledAeTitle opts c
  = (c', (effects, ret association)) ->
  forall pc ts,
    In pc (presentationContexts association) ->
    In ts (transferSyntaxUids pc) ->
    In (abstractSyntaxUid pc, ts) (requestedPairs StorageClass c).
Proof.
  intros Hsend pc ts Hpc Hts.
  destruct (send_inversion _ _ _ _ _ _ _ _ _ _ Hsend) as [_ [_ Hbuild]].
  unfold buildAssociation in Hbuild.
  assert (Hall : Forall (justified (requestedPairs StorageClass c))
                        (presentationContexts association)).
  { apply (addAdditionalContexts_justified
             _ (additionalPresentationContexts c)
             (addRequestContexts StorageClass (requests c)
                (Association.create callingAeTitle calledAeTitle))).
    - apply negotiable_addRequestContexts, negotiable_create.
    - apply addRequestContexts_justified; [|constructor].
      intros request Hin p Hp. unfold requestedPairs.
      apply in_or_app. left. apply in_flat_map. now exists request.
    - intros context Hin x Hx. unfold requestedPairs.
      apply in_or_app. right. apply in_flat_map. exists context.
      split; [assumption|]. apply in_map_iff. now exists x.
    - exact Hbuild. }
  rewrite Forall_forall in Hall. now apply (Hall pc).
Qed.

End SendProposal.

(* ================================================================== *)
(** * These properties on the objects of the test-suite *)
(* ================================================================== *)

Section MoreInstances.

Import PresentationContext Association Client ClientApi Fixture.

(** Two echo request objects of the same content, queued on a new client. *)
Lemma distinct_objects_are_both_queued_witness :
  value echo = value echoAgain
  /\ requests
       (fst (addRequest requestToString contextToString (JsRequest echoAgain)
               (fst (addRequest requestToString contextToString (JsRequest echo)
                                Client.create))))
     = [echo; echoAgain].
Proof.
  split; [reflexivity|].
  apply (distinct_objects_are_both_queued
           requestToString contextToString echo echoAgain Client.create).
  - discriminate.
  - reflexivity.
  - reflexivity.
Defined.

Lemma accepted_sends_the_current_queue_witness :
  let sent := send registry "pacs.example.org" 104 "SCU" "ANY-SCP" None client in
  let later :=
    fst (addRequest requestToString contextToString (JsRequest echoAgain) (fst sent)) in
  handle later sentAssociation (NetAssociationAccepted sentAssociation)
  = [Emit (associationAccepted sentAssociation); SendRequests [echo; echoAgain]]
  /\ handle later sentAssociation NetConnect
     = [Emit connected; SendAssociationRequest sentAssociation]
  /\ handle (clearRequests (fst sent)) sentAssociation
            (NetAssociationAccepted sentAssociation)
     = [Emit (associationAccepted sentAssociation); SendRequests []].
Proof.
  apply (accepted_sends_the_current_queue
           registry requestToString contextToString
           "pacs.example.org" 104 "SCU" "ANY-SCP" None client
           (fst (send registry "pacs.example.org" 104 "SCU" "ANY-SCP" None client))
           (fst (snd (send registry "pacs.example.org" 104 "SCU" "ANY-SCP" None client)))
           sentAssociation sentAssociation echoAgain);
    reflexivity.
Defined.



(** 'should correctly add presentation contexts' *)
Lemma allocated_context_round_trip_witness :
  wellNumbered association
  /\ let allocated := addPresentationContext "1.2.3.4.5.6.7.8.9" association in
     fst allocated
     = 2 * Z.of_nat (List.length (getPresentationContexts association)) + 1
     /\ exists a' pc,
          addTransferSyntaxToPresentationContext
            (fst allocated) "9.8.7.6.5.4.3.2.1" (snd allocated) = ret a'
          /\ getPresentationContext (fst allocated) a' = ret pc
          /\ pcId pc = fst allocated
          /\ getAbstractSyntaxUid pc = "1.2.3.4.5.6.7.8.9"
          /\ getTransferSyntaxUids pc = ["9.8.7.6.5.4.3.2.1"]
          /\ result pc = Pending
          /\ List.length (getPresentationContexts a')
             = S (List.length (getPresentationContexts association)).
Proof.
  split; [reflexivity|].
  apply (allocated_context_round_trip
           "1.2.3.4.5.6.7.8.9" "9.8.7.6.5.4.3.2.1" association).
  reflexivity.
Defined.

Lemma send_with_requests_connects_witness :
  requests client <> []
  /\ exists a,
       buildAssociation registry "SCU" "ANY-SCP" client = ret a
       /\ snd (send registry "pacs.example.org" 104 "SCU" "ANY-SCP" None client)
          = (([NewSocket; NewNetwork emptyOptions]
                ++ map NetworkOn networkEvents
                ++ [LogInfoConnecting "pacs.example.org" 104]
                ++ [SocketConnect "pacs.example.org" 104])%list,
             ret a)
       /\ exists message,
            snd (send registry "pacs.example.org" 70000 "SCU" "ANY-SCP" None client)
            = (([NewSocket; NewNetwork emptyOptions]
                  ++ map NetworkOn networkEvents
                  ++ [LogInfoConnecting "pacs.example.org" 70000])%list,
               throw (RangeError message)).
Proof.
  split; [discriminate|].
  destruct (send_with_requests_connects
              registry "pacs.example.org" 104 "SCU" "ANY-SCP" None client)
    as [a [Ha [_ [_ [Hvalid _]]]]]; [discriminate|].
  exists a. split; [exact Ha|]. split; [apply Hvalid; lia|].
  eexists. reflexivity.
Defined.

Lemma send_covers_every_request_witness :
  In echo (requests client)
  /\ In (SopClass.Verification, TransferSyntax.ImplicitVRLittleEndian)
        (impliedPairs registry (value echo))
  /\ exists pc,
       In pc (presentationContexts sentAssociation)
       /\ abstractSyntaxUid pc = SopClass.Verification
       /\ In TransferSyntax.ImplicitVRLittleEndian (transferSyntaxUids pc).
Proof.
  assert (Hin : In echo (requests client)) by (left; reflexivity).
  assert (Hp : In (SopClass.Verification, TransferSyntax.ImplicitVRLittleEndian)
                  (impliedPairs registry (value echo))) by (left; reflexivity).
  split; [exact Hin|]. split; [exact Hp|].
  exact (send_covers_every_request
           registry "pacs.example.org" 104 "SCU" "ANY-SCP" None client
           (fst (send registry "pacs.example.org" 104 "SCU" "ANY-SCP" None client))
           (fst (snd (send registry "pacs.example.org" 104 "SCU" "ANY-SCP" None client)))
           sentAssociation eq_refl echo Hin
           (SopClass.Verification, TransferSyntax.ImplicitVRLittleEndian) Hp).
Defined.

(** The explicit syntax of context 1 of [sentAssociation] was asked for by
    the additional context, the implicit one by the echo request. *)
Lemma send_proposes_only_what_was_asked_witness :
  In verificationMerged (presentationContexts sentAssociation)
  /\ In TransferSyntax.ExplicitVRLittleEndian (transferSyntaxUids verificationMerged)
  /\ In (SopClass.Verification, TransferSyntax.ExplicitVRLittleEndian)
        (requestedPairs registry client).
Proof.
  assert (Hpc : In verificationMerged (presentationContexts sentAssociation))
    by (left; reflexivity).
  assert (Hts : In TransferSyntax.ExplicitVRLittleEndian
                   (transferSyntaxUids verificationMerged))
    by (right; left; reflexivity).
  split; [exact Hpc|]. split; [exact Hts|].
  exact (send_proposes_only_what_was_asked
           registry "pacs.example.org" 104 "SCU" "ANY-SCP" None client
           (fst (send registry "pacs.example.org" 104 "SCU" "ANY-SCP" None client))
           (fst (snd (send registry "pacs.example.org" 104 "SCU" "ANY-SCP" None client)))
           sentAssociation eq_refl verificationMerged
           TransferSyntax.ExplicitVRLittleEndian Hpc Hts).
Defined.

End MoreInstances.

(* ================================================================== *)
(** * The linger delay *)
(* ================================================================== *)

Section LingerProperties.

Import PresentationContext Association Client ClientApi.

Variable StorageClass : list string.
Variable requestToString : Request -> string.
Variable contextToString : PresentationContext.t -> string.

Lemma configuredLinger_afterSend (opts : option Options) (c : Client.t) :
  associationLingerTimeout (afterSend opts c) = Some (configuredLinger opts).
Proof.
  unfold afterSend, configuredLinger. simpl.
  destruct opts as [o|]; simpl; [|reflexivity].
  destruct (optAssociationLingerTimeout o) as [z|]; simpl; [|reflexivity].
  destruct (Z.eqb_spec z 0); congruence.
Qed.

(** Only [send] assigns the linger field. *)
Lemma call_keeps_linger (k : Call) (c : Client.t) :
  isSend k = false ->
  associationLingerTimeout (call StorageClass requestToString contextToString k c)
  = associationLingerTimeout c.
Proof.
  destruct k as [v| |v|]; simpl; try discriminate; intros _; try reflexivity.
  - destruct v as [| |o|o|r]; simpl; try reflexivity.
    destruct (includes o (requests c)); reflexivity.
  - destruct v as [| |o|o|r]; simpl; try reflexivity.
    destruct (includes o (additionalPresentationContexts c)); reflexivity.
Qed.

Lemma calls_keep_linger (ks : list Call) (c : Client.t) :
  existsb isSend ks = false ->
  associationLingerTimeout (calls StorageClass requestToString contextToString ks c)
  = associationLingerTimeout c.
Proof.
  unfold calls. revert c. induction ks as [|k ks IH]; intros c H; simpl;
    [reflexivity|].
  simpl in H. apply orb_false_iff in H. destruct H as [Hk Hks].
  rewrite (IH _ Hks). now apply call_keeps_linger.
Qed.

Lemma send_subscribes_done
      (host : string) (port : Z) (callingAeTitle calledAeTitle : string)
      (opts : option Options) (c c' : Client.t) (effects : list Effect)
      (association : Association.t) :
  send StorageClass host port callingAeTitle calledAeTitle opts c
  = (c', (effects, ret association)) ->
  existsb (subscribes (eventName NetDone)) effects = true.
Proof.
  intros Hsend.
  destruct (send_effects _ _ _ _ _ _ _ _ _ _ Hsend) as [_ ->].
  reflexivity.
Qed.

(** C8, as the code has it: [send] stores the configured linger delay on the
    client, 0 when the option is 0 or left out.  When the network object of
    that [send] reports that all requests are done, and [send] was not
    called again on the client in between, the handler that [send]
    subscribed does one thing: it sets a timer with the configured delay
    whose callback sends the association-release request.  The runtime fires
    it after that delay when the delay is between 1 and 2^31 - 1
    milliseconds, and after 1 millisecond otherwise. *)
Theorem release_timer_takes_the_configured_linger
        (host : string) (port : Z) (callingAeTitle calledAeTitle : string)
        (opts : option Options) (c c' : Client.t) (effects : list Effect)
        (association : Association.t) :
  send StorageClass host port callingAeTitle calledAeTitle opts c
  = (c', (effects, ret association)) ->
  associationLingerTimeout c' = Some (configuredLinger opts)
  /\ ((opts = None
       \/ (exists o, opts = Some o
                     /\ (optAssociationLingerTimeout o = None
                         \/ optAssociationLingerTimeout o = Some 0))) ->
      associationLingerTimeout c' = Some 0)
  /\ forall ks,
       existsb isSend ks = false ->
       let current := calls StorageClass requestToString contextToString ks c' in
       deliver effects current association NetDone
       = [SetTimeout SendAssociationReleaseRequest (Some (configuredLinger opts))]
       /\ releaseDelays (deliver effects current association NetDone)
          = [if Z.leb 1 (configuredLinger opts)
                && Z.leb (configuredLinger opts) TIMEOUT_MAX
             then configuredLinger opts
             else 1].
Proof.
  intros Hsend.
  pose proof (send_subscribes_done _ _ _ _ _ _ _ _ _ Hsend) as Hdone.
  destruct (send_inversion _ _ _ _ _ _ _ _ _ _ Hsend) as [-> _].
  pose proof (configuredLinger_afterSend opts c) as Hlinger.
  split; [exact Hlinger|]. split.
  - rewrite Hlinger. unfold configuredLinger.
    intros [->|[o [-> [->| ->]]]]; reflexivity.
  - intros ks Hks. cbv zeta.
    assert (Hd : deliver effects
                   (calls StorageClass requestToString contextToString ks
                          (afterSend opts c))
                   association NetDone
                 = [SetTimeout SendAssociationReleaseRequest
                               (Some (configuredLinger opts))]).
    { unfold deliver. rewrite Hdone. unfold handle.
      now rewrite (calls_keep_linger ks _ Hks), Hlinger. }
    rewrite Hd. split; reflexivity.
Qed.

End LingerProperties.

Section LingerInstances.

Import PresentationContext Association Client ClientApi Fixture.

(** The claim C8 on [Fixture.client].  A [send] with a linger delay of 5000
    milliseconds, then a second [send] on the same client without one: when
    the network object of the first reports done, its handler sets the
    timer with the delay 0 of the second.  And a [send] with a delay of 2^31
    milliseconds: the timer is set with it and the runtime fires it after 1
    millisecond. *)
Lemma later_send_changes_the_linger_of_the_first :
  let first := send registry "pacs.example.org" 104 "SCU" "ANY-SCP"
                    (Some lingerOptions) client in
  let second := send registry "other.example.org" 11112 "SCU" "ANY-SCP"
                     None (fst first) in
  let long := send registry "pacs.example.org" 104 "SCU" "ANY-SCP"
                   (Some longLingerOptions) client in
  snd (snd first) = ret sentAssociation
  /\ configuredLinger (Some lingerOptions) = 5000
  /\ deliver (fst (snd first)) (fst first) sentAssociation NetDone
     = [SetTimeout SendAssociationReleaseRequest (Some 5000)]
  /\ deliver (fst (snd first)) (fst second) sentAssociation NetDone
     = [SetTimeout SendAssociationReleaseRequest (Some 0)]
  /\ configuredLinger (Some longLingerOptions) = 2147483648
  /\ deliver (fst (snd long)) (fst long) sentAssociation NetDone
     = [SetTimeout SendAssociationReleaseRequest (Some 2147483648)]
  /\ releaseDelays (deliver (fst (snd long)) (fst long) sentAssociation NetDone)
     = [1].
Proof.
  vm_compute. repeat split.
Qed.

Lemma release_timer_takes_the_configured_linger_witness :
  let sent := send registry "pacs.example.org" 104 "SCU" "ANY-SCP"
                   (Some lingerOptions) client in
  let current :=
    calls registry requestToString contextToString
          [CallAddRequest (JsRequest echoAgain); CallClearRequests] (fst sent) in
  sent = (fst sent, (fst (snd sent), ret sentAssociation))
  /\ associationLingerTimeout (fst sent) = Some 5000
  /\ deliver (fst (snd sent)) current sentAssociation NetDone
     = [SetTimeout SendAssociationReleaseRequest (Some 5000)]
  /\ releaseDelays (deliver (fst (snd sent)) current sentAssociation NetDone)
     = [5000].
Proof.
  cbv zeta. split; [reflexivity|].
  destruct (release_timer_takes_the_configured_linger
              registry requestToString contextToString
              "pacs.example.org" 104 "SCU" "ANY-SCP" (Some lingerOptions) client
              (fst (send registry "pacs.example.org" 104 "SCU" "ANY-SCP"
                         (Some lingerOptions) client))
              (fst (snd (send registry "pacs.example.org" 104 "SCU" "ANY-SCP"
                              (Some lingerOptions) client)))
              sentAssociation eq_refl)
    as [Hlinger [_ Hdone]].
  split; [exact Hlinger|].
  exact (Hdone [CallAddRequest (JsRequest echoAgain); CallClearRequests] eq_refl).
Defined.

End LingerInstances.

(* ================================================================== *)
(** * The negotiation, whatever the code merges *)
(* ================================================================== *)

Section EitherWay.

Import PresentationContext Association.

Variable merges : PresentationContext.t -> string -> bool.
Variable StorageClass : list string.

Lemma proposes_extended_self (q : string * string) (x : PresentationContext.t) :
  takes merges q x = true -> proposes q (extended x (snd q)) = true.
Proof.
  unfold takes, proposes, hasAbstractSyntax, extended, hasTransferSyntaxUid. simpl.
  intros H. apply andb_true_iff in H. destruct H as [-> _]. simpl.
  rewrite existsb_app. simpl. now rewrite String.eqb_refl, orb_true_r.
Qed.

(** Taking the transfer syntax of another pair does not change whether a
    context serves this one. *)
Lemma proposes_extended_other (p q : string * string) (x : PresentationContext.t) :
  takes merges q x = true -> p <> q ->
  proposes p (extended x (snd q)) = proposes p x.
Proof.
  unfold takes, proposes, hasAbstractSyntax, extended, hasTransferSyntaxUid. simpl.
  intros H Hneq. apply andb_true_iff in H. destruct H as [Hq _].
  apply String.eqb_eq in Hq.
  rewrite existsb_app. simpl. rewrite orb_false_r.
  destruct (String.eqb_spec (abstractSyntaxUid x) (fst p)) as [Hp|Hp]; simpl;
    [|reflexivity].
  destruct (String.eqb_spec (snd p) (snd q)) as [Hs|Hs];
    [|now rewrite orb_false_r].
  exfalso. apply Hneq. destruct p, q. simpl in *. congruence.
Qed.

Lemma find_replaceContext_first (f : PresentationContext.t -> bool)
      (x x' : PresentationContext.t) (l : list PresentationContext.t) :
  In x l ->
  (forall y, In y l -> f y = false) ->
  f x' = true ->
  find f (replaceContext (pcId x) x' l) = Some x'.
Proof.
  intros Hin Hnone Hx'. induction l as [|y l IH]; [contradiction|].
  simpl. destruct (hasId (pcId x) y) eqn:E.
  - simpl. now rewrite Hx'.
  - simpl. rewrite (Hnone y) by now left.
    apply IH.
    + destruct Hin as [->|Hin]; [|assumption].
      unfold hasId in E. now rewrite Z.eqb_refl in E.
    + intros z Hz. apply Hnone. now right.
Qed.

Lemma find_replaceContext_ids (f : PresentationContext.t -> bool) (id : Z)
      (x x' : PresentationContext.t) (l : list PresentationContext.t) :
  find (hasId id) l = Some x ->
  f x' = f x ->
  pcId x' = pcId x ->
  option_map pcId (find f (replaceContext id x' l)) = option_map pcId (find f l).
Proof.
  intros Hfind Hf Hid. induction l as [|y l IH]; [discriminate|].
  simpl in *. destruct (hasId id y) eqn:E.
  - injection Hfind as ->. simpl. rewrite Hf.
    destruct (f x); simpl; [now rewrite Hid|reflexivity].
  - simpl. destruct (f y); [reflexivity|]. now apply IH.
Qed.

Lemma first_with_id (x : PresentationContext.t) (l : list PresentationContext.t) :
  NoDup (map pcId l) -> In x l -> find (hasId (pcId x)) l = Some x.
Proof.
  intros Hnd Hin.
  destruct (find (hasId (pcId x)) l) as [y|] eqn:E.
  - destruct (find_some _ _ E) as [Hy Hid].
    unfold hasId in Hid. apply Z.eqb_eq in Hid.
    now rewrite (NoDup_map_injective pcId l y x Hnd Hy Hin Hid).
  - apply (find_none _ _ E) in Hin. unfold hasId in Hin.
    now rewrite Z.eqb_refl in Hin.
Qed.

Lemma proposePairWith_reuse (p : string * string) (a : Association.t)
      (pc : PresentationContext.t) :
  find (proposes p) (presentationContexts a) = Some pc ->
  proposePairWith merges p a = (pcId pc, a).
Proof.
  unfold proposePairWith. now intros ->.
Qed.

Lemma wellNumbered_proposePairWith (p : string * string) (a : Association.t) :
  wellNumbered a -> wellNumbered (snd (proposePairWith merges p a)).
Proof.
  intros Hwn. unfold proposePairWith.
  destruct (find (proposes p) (presentationContexts a)); [assumption|].
  destruct (find (takes merges p) (presentationContexts a)) as [x|]; simpl.
  - apply (wellNumbered_same_ids a); [|assumption]. simpl.
    now apply replaceContext_ids.
  - now apply wellNumbered_push.
Qed.

Lemma wellNumbered_proposePairsWith (ps : list (string * string))
      (a : Association.t) :
  wellNumbered a -> wellNumbered (proposePairsWith merges ps a).
Proof.
  unfold proposePairsWith. revert a.
  induction ps as [|p ps IH]; intros a Ha; simpl; [assumption|].
  apply IH. now apply wellNumbered_proposePairWith.
Qed.

(** After [proposePairWith p], the first context that serves [p] is the one
    whose id was returned. *)
Lemma proposePairWith_serves (p : string * string) (a : Association.t) :
  exists pc,
    find (proposes p) (presentationContexts (snd (proposePairWith merges p a)))
    = Some pc
    /\ pcId pc = fst (proposePairWith merges p a).
Proof.
  unfold proposePairWith.
  destruct (find (proposes p) (presentationContexts a)) as [pc|] eqn:E.
  { exists pc. auto. }
  destruct (find (takes merges p) (presentationContexts a)) as [x|] eqn:T;
    cbn [fst snd withContexts presentationContexts].
  - destruct (find_some _ _ T) as [Hin Htakes].
    exists (extended x (snd p)). split; [|reflexivity].
    apply find_replaceContext_first; [assumption| |].
    + intros y Hy. exact (find_none _ _ E y Hy).
    + now apply proposes_extended_self.
  - eexists. split.
    + rewrite find_app_none by assumption. cbn [find].
      rewrite proposes_seed. reflexivity.
    + reflexivity.
Qed.

(** A pair that is served keeps the context that serves it, by its id,
    when another pair is proposed. *)
Lemma proposePairWith_stable (p q : string * string) (a : Association.t) :
  wellNumbered a ->
  find (proposes p) (presentationContexts a) <> None ->
  option_map pcId
    (find (proposes p) (presentationContexts (snd (proposePairWith merges q a))))
  = option_map pcId (find (proposes p) (presentationContexts a)).
Proof.
  intros Hwn Hserved. unfold proposePairWith.
  destruct (find (proposes q) (presentationContexts a)) as [pc|] eqn:E;
    [reflexivity|].
  assert (Hneq : p <> q) by (intros ->; contradiction).
  destruct (find (takes merges q) (presentationContexts a)) as [x|] eqn:T;
    cbn [fst snd withContexts presentationContexts].
  - destruct (find_some _ _ T) as [Hin Htakes].
    apply (find_replaceContext_ids _ _ x).
    + apply first_with_id; [now apply wellNumbered_NoDup|assumption].
    + now apply proposes_extended_other.
    + reflexivity.
  - destruct (find (proposes p) (presentationContexts a)) as [pc|] eqn:F;
      [|contradiction].
    now rewrite (find_app_some _ _ _ pc F).
Qed.

Lemma proposePairsWith_stable (p : string * string) (ps : list (string * string))
      (a : Association.t) :
  wellNumbered a ->
  find (proposes p) (presentationContexts a) <> None ->
  option_map pcId
    (find (proposes p) (presentationContexts (proposePairsWith merges ps a)))
  = option_map pcId (find (proposes p) (presentationContexts a)).
Proof.
  unfold proposePairsWith. revert a.
  induction ps as [|q ps IH]; intros a Hwn Hserved; simpl; [reflexivity|].
  pose proof (proposePairWith_stable p q a Hwn Hserved) as Hq.
  rewrite IH.
  - exact Hq.
  - now apply wellNumbered_proposePairWith.
  - intros Hnone. rewrite Hnone in Hq.
    destruct (find (proposes p) (presentationContexts a));
      [discriminate|contradiction].
Qed.

Lemma served_of_ids (p : string * string) (l l' : list PresentationContext.t) :
  option_map pcId (find (proposes p) l') = option_map pcId (find (proposes p) l) ->
  find (proposes p) l <> None -> find (proposes p) l' <> None.
Proof.
  intros H Hl Hl'. rewrite Hl' in H.
  destruct (find (proposes p) l); [discriminate|contradiction].
Qed.

Lemma proposePairsWith_idle (ps : list (string * string)) (a : Association.t) :
  (forall p, In p ps -> find (proposes p) (presentationContexts a) <> None) ->
  proposePairsWith merges ps a = a.
Proof.
  unfold proposePairsWith.
  induction ps as [|q ps IH]; intros H; simpl; [reflexivity|].
  destruct (find (proposes q) (presentationContexts a)) as [pc|] eqn:E.
  - rewrite (proposePairWith_reuse q a pc E). simpl. apply IH.
    intros p Hp. apply H. now right.
  - exfalso. apply (H q); [now left|assumption].
Qed.

Lemma proposePairsWith_serves (ps : list (string * string)) (a : Association.t) :
  wellNumbered a ->
  forall p, In p ps ->
    find (proposes p) (presentationContexts (proposePairsWith merges ps a)) <> None.
Proof.
  revert a. induction ps as [|q ps IH]; intros a Hwn p Hp; [contradiction|].
  change (proposePairsWith merges (q :: ps) a)
    with (proposePairsWith merges ps (snd (proposePairWith merges q a))).
  pose proof (wellNumbered_proposePairWith q a Hwn) as Hwn1.
  destruct Hp as [->|Hp]; [|now apply IH].
  destruct (proposePairWith_serves p a) as [pc [Hpc _]].
  apply (served_of_ids p (presentationContexts (snd (proposePairWith merges p a)))).
  - now apply proposePairsWith_stable; [|rewrite Hpc].
  - now rewrite Hpc.
Qed.

(** Never merging is [proposePair]. *)
Lemma proposePairWith_never (p : string * string) (a : Association.t) :
  proposePairWith (fun _ _ => false) p a = proposePair p a.
Proof.
  unfold proposePairWith, proposePair.
  destruct (find (proposes p) (presentationContexts a)); [reflexivity|].
  rewrite find_all_false; [reflexivity|].
  intros x _. unfold takes. apply andb_false_r.
Qed.

Lemma addPresentationContextFromRequestWith_never (r : Request) (a : Association.t) :
  addPresentationContextFromRequestWith (fun _ _ => false) StorageClass r a
  = addPresentationContextFromRequest StorageClass r a.
Proof.
  unfold addPresentationContextFromRequestWith, addPresentationContextFromRequest.
  rewrite proposePairWith_never. f_equal.
  unfold proposePairsWith, proposePairs.
  generalize (storagePairs StorageClass r). intros ps. revert a.
  induction ps as [|q ps IH]; intros a; simpl; [reflexivity|].
  now rewrite proposePairWith_never, IH.
Qed.

(** Two store requests of one abstract syntax: whatever is merged, each gets
    the id of a context of that abstract syntax which proposes its transfer
    syntax afterwards. *)
Lemma store_requests_each_get_a_proposing_context_either_way
      (a : Association.t) (uid ts1 ts2 : string) :
  wellNumbered a ->
  let first :=
    addPresentationContextFromRequestWith
      merges StorageClass (CStoreRequest uid ts1) a in
  let second :=
    addPresentationContextFromRequestWith
      merges StorageClass (CStoreRequest uid ts2) (snd first) in
  exists pc1 pc2,
    getPresentationContext (fst first) (snd second) = ret pc1
    /\ getPresentationContext (fst second) (snd second) = ret pc2
    /\ abstractSyntaxUid pc1 = uid /\ In ts1 (transferSyntaxUids pc1)
    /\ abstractSyntaxUid pc2 = uid /\ In ts2 (transferSyntaxUids pc2)
    /\ (fst first = fst second -> pc1 = pc2).
Proof.
  intros Hwn. cbv zeta.
  change (addPresentationContextFromRequestWith
            merges StorageClass (CStoreRequest uid ts1) a)
    with (proposePairWith merges (uid, ts1) a).
  set (s1 := proposePairWith merges (uid, ts1) a).
  change (addPresentationContextFromRequestWith
            merges StorageClass (CStoreRequest uid ts2) (snd s1))
    with (proposePairWith merges (uid, ts2) (snd s1)).
  set (s2 := proposePairWith merges (uid, ts2) (snd s1)).
  assert (Hwn1 : wellNumbered (snd s1)) by now apply wellNumbered_proposePairWith.
  assert (Hwn2 : wellNumbered (snd s2)) by now apply wellNumbered_proposePairWith.
  destruct (proposePairWith_serves (uid, ts1) a) as [pc [Hf Hid]].
  fold s1 in Hf, Hid.
  destruct (proposePairWith_serves (uid, ts2) (snd s1)) as [pc2 [Hf2 Hid2]].
  fold s2 in Hf2, Hid2.
  pose proof (proposePairWith_stable (uid, ts1) (uid, ts2) (snd s1) Hwn1) as Hst.
  fold s2 in Hst. rewrite Hf in Hst. specialize (Hst ltac:(discriminate)).
  destruct (find (proposes (uid, ts1)) (presentationContexts (snd s2)))
    as [pc1|] eqn:Hf1; [|discriminate].
  simpl in Hst. injection Hst as Hid1. rewrite Hid in Hid1.
  destruct (find_some _ _ Hf1) as [Hin1 Hp1].
  destruct (find_some _ _ Hf2) as [Hin2 Hp2].
  apply proposes_spec in Hp1. apply proposes_spec in Hp2. simpl in Hp1, Hp2.
  destruct Hp1 as [Ha1 Ht1], Hp2 as [Ha2 Ht2].
  exists pc1, pc2. rewrite <- Hid1, <- Hid2.
  rewrite !getPresentationContext_member by assumption.
  repeat (split; [solve [auto]|]).
  intros Heq.
  exact (NoDup_map_injective pcId _ pc1 pc2
           (wellNumbered_NoDup _ Hwn2) Hin1 Hin2 Heq).
Qed.

(** Two requests of the same abstract syntax and transfer syntax: whatever
    is merged, the second gets the id of the first, and changes nothing
    unless it is a retrieve-style request after one that is not. *)
Lemma same_request_pair_twice_either_way (a : Association.t) (r1 r2 : Request) :
  wellNumbered a ->
  getAffectedSopClassUid r1 = getAffectedSopClassUid r2 ->
  requestedTransferSyntaxUid r1 = requestedTransferSyntaxUid r2 ->
  let first := addPresentationContextFromRequestWith merges StorageClass r1 a in
  let second :=
    addPresentationContextFromRequestWith merges StorageClass r2 (snd first) in
  fst second = fst first
  /\ ((isRetrieve r2 = true -> isRetrieve r1 = true) ->
      snd second = snd first).
Proof.
  intros Hwn Huid Hts. cbv zeta.
  assert (Hp : primaryPair r2 = primaryPair r1)
    by (unfold primaryPair; now rewrite Huid, Hts).
  set (a0 := proposePairsWith merges (storagePairs StorageClass r1) a).
  assert (Hwn0 : wellNumbered a0) by now apply wellNumbered_proposePairsWith.
  destruct (proposePairWith_serves (primaryPair r1) a0) as [pc [Hf Hid]].
  change (proposePairWith merges (primaryPair r1) a0)
    with (addPresentationContextFromRequestWith merges StorageClass r1 a) in Hf, Hid.
  set (s1 := addPresentationContextFromRequestWith merges StorageClass r1 a) in *.
  assert (Hwn1 : wellNumbered (snd s1))
    by (subst s1; now apply wellNumbered_proposePairWith).
  split.
  - unfold addPresentationContextFromRequestWith at 1. rewrite Hp.
    pose proof (proposePairsWith_stable
                  (primaryPair r1) (storagePairs StorageClass r2) (snd s1) Hwn1)
      as Hst.
    rewrite Hf in Hst. specialize (Hst ltac:(discriminate)).
    destruct (find (proposes (primaryPair r1))
                   (presentationContexts
                      (proposePairsWith merges (storagePairs StorageClass r2) (snd s1))))
      as [pc'|] eqn:Hf'; [|discriminate].
    rewrite (proposePairWith_reuse _ _ pc' Hf').
    simpl in Hst. injection Hst as Hid'. simpl. congruence.
  - intros Hstyle.
    assert (Hidle : proposePairsWith merges (storagePairs StorageClass r2) (snd s1)
                    = snd s1).
    { apply proposePairsWith_idle. intros q Hq.
      unfold storagePairs in Hq. destruct (isRetrieve r2) eqn:E2; [|contradiction].
      assert (Hq1 : In q (storagePairs StorageClass r1))
        by (unfold storagePairs; now rewrite (Hstyle eq_refl)).
      pose proof (proposePairsWith_serves
                    (storagePairs StorageClass r1) a Hwn q Hq1) as Hs.
      fold a0 in Hs.
      apply (served_of_ids q (presentationContexts a0)); [|assumption].
      subst s1. unfold addPresentationContextFromRequestWith. fold a0.
      now apply proposePairWith_stable. }
    unfold addPresentationContextFromRequestWith at 1.
    rewrite Hidle, Hp. now rewrite (proposePairWith_reuse _ _ pc Hf).
Qed.

End EitherWay.

(** Merging every time, as the spec's second bullet has it, gives [request3]
    and [request4] of the C-STORE test one context id, where the test
    expects two. *)
Example merging_every_time_fails_the_test :
  let merge := fun (_ : PresentationContext.t) (_ : string) => true in
  let s3 := Association.addPresentationContextFromRequestWith
              merge Fixture.registry Fixture.request3 Fixture.association in
  let s4 := Association.addPresentationContextFromRequestWith
              merge Fixture.registry Fixture.request4 (snd s3) in
  fst s3 = 1 /\ fst s4 = 1
  /\ List.length (Association.getPresentationContexts (snd s4)) = 1%nat.
Proof. vm_compute. repeat split. Qed.
